(** * Log analyser (03_script_logger.py): shallow embedding and properties

    The script reads a line-oriented log file, parses every non-blank line
    into a [LogEntry], and either counts the entries per level or lists the
    entries of one level.

    Data model used below.
    - A Python [str] is a sequence of Unicode code points: [list N]
      ([len] is [length], slicing is on code points).
    - [LogEntry] (a [TypedDict] with four fixed keys) is a record.
    - A [dict] / [Counter] is an insertion-ordered association list without
      duplicate keys; its values are Python ints ([Z]).
    - Exceptions are values of [exn]; a computation that may raise returns
      [result]; a computation that prints threads [stdout] through [IO].
    - The file system is a function from a path to either an I/O failure or
      the list of lines that iterating over the open file yields. *)

From Stdlib Require Import List NArith ZArith Bool Lia.
From Stdlib Require Import Sorted Permutation.
From Stdlib Require String DecimalString.
From Stdlib.Strings Require Byte.
Import ListNotations.
Import String.StringSyntax.
Delimit Scope string_scope with string.

Local Open Scope N_scope.

(* ===================================================================== *)
(** ** Python strings                                                     *)
(* ===================================================================== *)

Module PyStr.

(** A [str]: its code points, in order. *)
Definition str : Type := list N.

Definition str_eq_dec : forall a b : str, {a = b} + {a <> b} :=
  list_eq_dec N.eq_dec.

(** [a == b] on strings. *)
Definition str_eqb (a b : str) : bool :=
  if str_eq_dec a b then true else false.

(** Decoding of the UTF-8 bytes of a source literal into code points (the
    source file is UTF-8 and its literals hold Cyrillic text). *)
Fixpoint utf8_decode (bs : list N) : str :=
  match bs with
  | [] => []
  | b0 :: r0 =>
    if b0 <? 128 then b0 :: utf8_decode r0
    else match r0 with
    | [] => []
    | b1 :: r1 =>
      if b0 <? 224 then ((b0 - 192) * 64 + (b1 - 128)) :: utf8_decode r1
      else match r1 with
      | [] => []
      | b2 :: r2 =>
        if b0 <? 240
        then ((b0 - 224) * 4096 + (b1 - 128) * 64 + (b2 - 128))
               :: utf8_decode r2
        else match r2 with
        | [] => []
        | b3 :: r3 =>
          ((b0 - 240) * 262144 + (b1 - 128) * 4096
             + (b2 - 128) * 64 + (b3 - 128)) :: utf8_decode r3
        end
      end
    end
  end.

(** A string literal of the source. *)
Definition py (s : String.string) : str :=
  utf8_decode (map Strings.Byte.to_N (String.list_byte_of_string s)).

Arguments py s%_string.

(** [ch.isspace()] for one code point: the characters [str.strip] and
    [str.split] treat as whitespace. *)
Definition is_space (c : N) : bool :=
  ((9 <=? c) && (c <=? 13)) || ((28 <=? c) && (c <=? 32))
  || (c =? 133) || (c =? 160) || (c =? 5760)
  || ((8192 <=? c) && (c <=? 8202))
  || (c =? 8232) || (c =? 8233) || (c =? 8239) || (c =? 8287)
  || (c =? 12288).

Definition non_space (c : N) : bool := negb (is_space c).

Fixpoint take_while (p : N -> bool) (s : str) : str :=
  match s with
  | [] => []
  | c :: s' => if p c then c :: take_while p s' else []
  end.

Fixpoint drop_while (p : N -> bool) (s : str) : str :=
  match s with
  | [] => []
  | c :: s' => if p c then drop_while p s' else s
  end.

(** [s.lstrip()]. *)
Definition lstrip (s : str) : str := drop_while is_space s.

(** [s.rstrip()]: the trailing run of whitespace is removed. *)
Fixpoint rstrip (s : str) : str :=
  match s with
  | [] => []
  | c :: s' =>
    match rstrip s' with
    | [] => if is_space c then [] else [c]
    | r => c :: r
    end
  end.

(** [s.strip()]. *)
Definition strip (s : str) : str := rstrip (lstrip s).

(** [s.split(maxsplit=maxcount)] without separator, for [maxcount >= 0]:
    up to [maxcount] times, skip whitespace and cut one whitespace-free
    word; what is left after the last cut, without its leading whitespace,
    is kept whole as the final item when it is not empty. *)
Fixpoint split_ws (maxcount : nat) (s : str) : list str :=
  match maxcount with
  | O => match lstrip s with
         | [] => []
         | r => [r]
         end
  | S m => match lstrip s with
           | [] => []
           | r => take_while non_space r :: split_ws m (drop_while non_space r)
           end
  end.

(** [s.split()]: no limit on the number of cuts (a string of [n] code
    points has fewer than [n + 1] words). *)
Definition split (s : str) : list str := split_ws (length s) s.

(** The whitespace-delimited tokens of a string, read off one code point
    at a time: [cur] is the token being read. *)
Fixpoint tokens_from (cur : str) (s : str) : list str :=
  match s with
  | [] => match cur with [] => [] | _ => [cur] end
  | c :: s' =>
    if is_space c
    then match cur with
         | [] => tokens_from [] s'
         | _ => cur :: tokens_from [] s'
         end
    else tokens_from (cur ++ [c]) s'
  end.

Definition tokens (s : str) : list str := tokens_from [] s.

(** The case table of the Unicode database, which [str.upper] consults for
    every code point ([to_upper_full c] is the upper-case form of [c], one
    to three code points).  On ASCII it maps [a-z] to [A-Z] and leaves
    everything else alone. *)
Definition ascii_upper (c : N) : N :=
  if (97 <=? c) && (c <=? 122) then c - 32 else c.

Class CaseTable : Type := {
  to_upper_full : N -> list N;
  to_upper_ascii : forall c, c < 128 -> to_upper_full c = [ascii_upper c]
}.

(** [s.upper()]. *)
Definition upper `{CaseTable} (s : str) : str := flat_map to_upper_full s.

(** ['c' * n]. *)
Definition repeat_char (c : N) (n : nat) : str := repeat c n.

(** [f"{s:<{width}}"]: left-aligned in a field of [width], padded with
    spaces on the right; longer strings are not cut. *)
Definition ljust (s : str) (width : nat) : str :=
  s ++ repeat_char 32 (width - length s).

(** [a < b] on strings: lexicographic on code points. *)
Fixpoint str_ltb (a b : str) : bool :=
  match a, b with
  | _, [] => false
  | [], _ :: _ => true
  | x :: a', y :: b' =>
    if x <? y then true else if y <? x then false else str_ltb a' b'
  end.

(** [str(n)] for a Python int. *)
Definition str_of_int (n : Z) : str :=
  py (DecimalString.NilZero.string_of_int (Z.to_int n)).

End PyStr.

Import PyStr.

(* ===================================================================== *)
(** ** Python dictionaries, [Counter], [sorted], [max]                    *)
(* ===================================================================== *)

Module PyDict.

(** A [dict] from [str] to [int]: the items in insertion order, every key
    once. *)
Definition dict : Type := list (str * Z).

Definition keys (d : dict) : list str := map fst d.

(** [d.get(k)]. *)
Fixpoint get (d : dict) (k : str) : option Z :=
  match d with
  | [] => None
  | (k', v) :: d' => if str_eq_dec k k' then Some v else get d' k
  end.

(** [d.get(k, default)]. *)
Definition get_default (d : dict) (k : str) (default : Z) : Z :=
  match get d k with
  | Some v => v
  | None => default
  end.

(** [d[k] = v]: a key that is present keeps its place, a new key goes to
    the end. *)
Fixpoint set (d : dict) (k : str) (v : Z) : dict :=
  match d with
  | [] => [(k, v)]
  | (k', v') :: d' =>
    if str_eq_dec k k' then (k, v) :: d' else (k', v') :: set d' k v
  end.

(** [Counter(iterable)]: starting from the empty mapping, for every
    element [mapping[elem] = mapping.get(elem, 0) + 1]. *)
Definition Counter (iterable : list str) : dict :=
  fold_left (fun mapping elem =>
               set mapping elem (get_default mapping elem 0 + 1)%Z)
            iterable [].

(** [sorted(iterable)] on strings: a stable sort that compares with [<]
    only.  [insert_sorted x l] puts [x] in front of the first item that is
    not smaller than [x]. *)
Fixpoint insert_sorted (x : str) (l : list str) : list str :=
  match l with
  | [] => [x]
  | y :: l' => if str_ltb y x then y :: insert_sorted x l' else x :: l
  end.

Definition sorted (iterable : list str) : list str :=
  fold_right insert_sorted [] iterable.

(** [max(iterable, default=default)] on lengths. *)
Definition max_default (iterable : list nat) (default : nat) : nat :=
  match iterable with
  | [] => default
  | x :: rest => fold_left Nat.max rest x
  end.

End PyDict.

(* ===================================================================== *)
(** ** Exceptions and printing                                            *)
(* ===================================================================== *)

Module PyEff.

Inductive exn : Type :=
| ValueError (msg : str)
| KeyError (key : str)
| FileNotFoundError (msg : str)
| PermissionError (msg : str)
| OSError (msg : str).

(** The outcome of a call: a value, or a raised exception. *)
Inductive result (A : Type) : Type :=
| Ok (a : A)
| Raise (e : exn).

Arguments Ok {A} a.
Arguments Raise {A} e.

(** A computation that prints: from the text on standard output so far to
    its outcome and the text afterwards. *)
Definition IO (A : Type) : Type := str -> result A * str.

Definition ret {A} (a : A) : IO A := fun out => (Ok a, out).

Definition bind {A B} (c : IO A) (k : A -> IO B) : IO B :=
  fun out =>
    match c out with
    | (Ok a, out') => k a out'
    | (Raise e, out') => (Raise e, out')
    end.

Definition lift {A} (r : result A) : IO A := fun out => (r, out).

(** [print(s)]: the text and a newline. *)
Definition print (s : str) : IO unit :=
  fun out => (Ok tt, out ++ s ++ [10]).

(** [for x in xs: body(x)]. *)
Fixpoint for_each {A} (xs : list A) (body : A -> IO unit) : IO unit :=
  match xs with
  | [] => ret tt
  | x :: xs' => bind (body x) (fun _ => for_each xs' body)
  end.

(** [[f(x) for x in iterable if cond(x)]]: the items are visited in order,
    the result list grows by one item per accepted [x], and an exception
    raised by [f] ends the comprehension. *)
Fixpoint list_comp {A B} (f : A -> result B) (cond : A -> bool)
    (iterable : list A) (acc : list B) : result (list B) :=
  match iterable with
  | [] => Ok acc
  | x :: rest =>
    if cond x
    then match f x with
         | Ok y => list_comp f cond rest (acc ++ [y])
         | Raise e => Raise e
         end
    else list_comp f cond rest acc
  end.

(** Truth value of a string: non-empty. *)
Definition truthy (s : str) : bool :=
  match s with
  | [] => false
  | _ :: _ => true
  end.

(** What opening and reading a file can fail with. *)
Inductive io_failure : Type :=
| NotFound
| NoPermission
| OtherFailure (detail : str).

(** The file system: for a path, the failure of [open], or the lines that
    iterating over the file yields (each with its line end). *)
Definition filesystem : Type := str -> io_failure + list str.

End PyEff.

Import PyDict PyEff.

Declare Scope io_scope.
Delimit Scope io_scope with io.
Notation "x <- c ;; k" := (bind c (fun x => k))
  (at level 61, c at next level, right associativity) : io_scope.
Notation "c ;; k" := (bind c (fun _ => k))
  (at level 61, right associativity) : io_scope.

(* ===================================================================== *)
(** ** The script                                                         *)
(* ===================================================================== *)

Module Logger.

Record LogEntry : Type := mkLogEntry {
  date : str;
  time : str;
  level : str;
  message : str
}.

Definition LogList : Type := list LogEntry.
Definition LogCounts : Type := dict.

(** [parse_log_line]: at most three cuts of the stripped line; fewer than
    four parts raise [ValueError] with the line as it was given; the parts
    are unpacked into the four fields (unpacking anything but four items
    would raise [ValueError] too). *)
Definition parse_log_line (line : str) : result LogEntry :=
  let parts := split_ws 3 (strip line) in
  if (length parts <? 4)%nat
  then Raise (ValueError (py "Invalid log format: " ++ line))
  else match parts with
       | [date; time; level; message] =>
         Ok {| date := date; time := time; level := level;
               message := message |}
       | _ => Raise (ValueError (py "too many values to unpack (expected 4)"))
       end.

(** [load_logs]: the three [except] clauses re-raise failures of the file
    itself with a message of their own; a [ValueError] of [parse_log_line]
    is none of them and leaves the function as it is. *)
Definition load_logs (fs : filesystem) (file_path : str) : result LogList :=
  match fs file_path with
  | inr file =>
    list_comp parse_log_line (fun line => truthy (strip line)) file []
  | inl NotFound =>
    Raise (FileNotFoundError (py "File '" ++ file_path ++ py "' not found."))
  | inl NoPermission =>
    Raise (PermissionError (py "No permission to read '" ++ file_path ++ py "'."))
  | inl (OtherFailure e) =>
    Raise (OSError (py "File error: " ++ e))
  end.

(** [filter_logs_by_level] (the second [return] of the source is never
    reached). *)
Definition filter_logs_by_level `{CaseTable} (logs : LogList) (lvl : str)
    : LogList :=
  let lvl := upper lvl in
  filter (fun log => str_eqb (level log) lvl) logs.

Definition count_logs_by_level (logs : LogList) : dict :=
  Counter (map level logs).

Definition calculate_level_width (counts : LogCounts) (header : str) : nat :=
  let longest_level := max_default (map (@length N) (keys counts)) 0 in
  Nat.max (length header) longest_level.

Local Open Scope io_scope.

Definition print_table_header (level_header count_header : str)
    (level_width : nat) : IO unit :=
  print (ljust level_header level_width ++ py " | " ++ count_header) ;;
  print (repeat_char 45 level_width ++ py "-|"
           ++ repeat_char 45 (length count_header + 1)).

(** [counts[level]] raises [KeyError] for a key that is not there. *)
Definition getitem (counts : LogCounts) (k : str) : result Z :=
  match get counts k with
  | Some v => Ok v
  | None => Raise (KeyError k)
  end.

Definition print_table_rows (counts : LogCounts) (level_width : nat)
    : IO unit :=
  for_each (sorted (keys counts)) (fun lvl =>
    n <- lift (getitem counts lvl) ;;
    print (ljust lvl level_width ++ py " | " ++ str_of_int n)).

Definition header_level : str := py "Рівень логування".
Definition header_count : str := py "Кількість".

Definition display_log_counts (counts : LogCounts) : IO unit :=
  let level_width := calculate_level_width counts header_level in
  print_table_header header_level header_count level_width ;;
  print_table_rows counts level_width.

Definition display_filtered_logs `{CaseTable} (logs : LogList) (lvl : str)
    : IO unit :=
  let lvl := upper lvl in
  match logs with
  | [] => print ([10] ++ py "Немає записів для рівня '" ++ lvl ++ py "'.")
  | _ :: _ =>
    print ([10] ++ py "Деталі логів для рівня '" ++ lvl ++ py "':") ;;
    for_each logs (fun log =>
      print (date log ++ py " " ++ time log ++ py " - " ++ message log))
  end.

End Logger.

Import Logger.

(** The case table restricted to ASCII, for running the definitions. *)
Definition ascii_table : CaseTable :=
  {| to_upper_full := fun c => [ascii_upper c];
     to_upper_ascii := fun c _ => eq_refl |}.

(** Sample lines and files. *)
Definition line_info : str := py "2024-01-01 10:00:00 INFO Service started" ++ [10].
Definition line_error1 : str := py "2024-01-01 10:05:00 ERROR Disk full" ++ [10].
Definition line_error2 : str := py "2024-01-01 10:06:00 ERROR Disk full again" ++ [10].
Definition line_three_tokens : str := py "2024-01-01 10:00:00 INFO" ++ [10].
Definition line_spaced : str :=
  py " 2024-01-01  10:00:00 INFO   Disk  full   again  " ++ [10].

Definition sample_file : list str := [line_info; line_error1; line_error2].

Definition sample_logs : LogList :=
  [ mkLogEntry (py "2024-01-01") (py "10:00:00") (py "INFO") (py "Service started");
    mkLogEntry (py "2024-01-01") (py "10:05:00") (py "ERROR") (py "Disk full");
    mkLogEntry (py "2024-01-01") (py "10:06:00") (py "ERROR")
               (py "Disk full again") ].

Definition on_disk (file : list str) : filesystem := fun _ => inr file.

(* ===================================================================== *)
(** ** Vocabulary of the properties                                       *)
(* ===================================================================== *)

Definition is_sp (c : N) : Prop := is_space c = true.
Definition not_sp (c : N) : Prop := is_space c = false.

(** A word: non-empty and free of whitespace.  A gap: non-empty and made
    of whitespace only. *)
Definition all_space (s : str) : Prop := Forall is_sp s.
Definition no_space (s : str) : Prop := Forall not_sp s.
Definition word (w : str) : Prop := w <> [] /\ no_space w.
Definition gap (g : str) : Prop := g <> [] /\ all_space g.

(** Nothing, or a string whose first character satisfies [P]. *)
Definition head_is (P : N -> Prop) (s : str) : Prop :=
  match s with
  | [] => True
  | c :: _ => P c
  end.

Definition last_is (P : N -> Prop) (s : str) : Prop :=
  s = [] \/ exists s' c, s = s' ++ [c] /\ P c.

(** The shape of a well-formed line, once stripped: three words, each
    followed by a gap, and then the message, which begins and ends with a
    character that is not whitespace. *)
Definition log_line_shape (s : str) (e : LogEntry) : Prop :=
  exists g1 g2 g3,
    s = date e ++ g1 ++ time e ++ g2 ++ level e ++ g3 ++ message e
    /\ word (date e) /\ gap g1 /\ word (time e) /\ gap g2
    /\ word (level e) /\ gap g3
    /\ message e <> [] /\ head_is not_sp (message e)
    /\ last_is not_sp (message e).

Definition invalid_log_format (line : str) : exn :=
  ValueError (py "Invalid log format: " ++ line).

(** A blank line: whitespace only (the line end counts as whitespace). *)
Definition is_blank (line : str) : bool := forallb is_space line.

(** A line that [load_logs] accepts: blank, or with four tokens or more. *)
Definition acceptable (line : str) : Prop :=
  is_blank line = true \/ (4 <= length (tokens (strip line)))%nat.

(** A line that [load_logs] rejects: not blank, and with fewer than four
    tokens. *)
Definition malformed (line : str) : Prop :=
  is_blank line = false /\ (length (tokens (strip line)) < 4)%nat.

(** The number of entries of [logs] whose level is [L]. *)
Definition count_level (logs : LogList) (L : str) : nat :=
  length (filter (fun e => str_eqb (level e) L) logs).

(** The sum of the counts of a mapping. *)
Definition total (d : dict) : Z := fold_right Z.add 0%Z (map snd d).

(** [a <= b] on strings, that is [not (b < a)]. *)
Definition str_le (a b : str) : Prop := str_ltb b a = false.
Definition str_lt (a b : str) : Prop := str_ltb a b = true.

(** The text of one row of the count table. *)
Definition table_row (counts : dict) (level_width : nat) (lvl : str) : str :=
  ljust lvl level_width ++ py " | " ++ str_of_int (get_default counts lvl 0)
  ++ [10].

(** The two lines of the table header: the labels, and the rule under
    them. *)
Definition header_row (level_header count_header : str) (level_width : nat)
    : str :=
  level_header ++ repeat_char 32 (level_width - length level_header)
  ++ [32; 124; 32] ++ count_header.

Definition separator_row (count_header : str) (level_width : nat) : str :=
  repeat_char 45 level_width ++ [45; 124]
  ++ repeat_char 45 (length count_header + 1).

(** The text of one line of the detail listing. *)
Definition detail_line (log : LogEntry) : str :=
  date log ++ py " " ++ time log ++ py " - " ++ message log ++ [10].

(** The two texts of the detail listing that name the (upper-cased)
    level: the notice for an empty list, the header for the others. *)
Definition no_entries_notice (lvl : str) : str :=
  py "Немає записів для рівня '" ++ lvl ++ py "'.".

Definition details_header (lvl : str) : str :=
  py "Деталі логів для рівня '" ++ lvl ++ py "':".

(** The lines of a printed text: the stretches between line ends; and
    those of them that are not empty. *)
Fixpoint lines_from (cur : str) (out : str) : list str :=
  match out with
  | [] => [cur]
  | c :: out' =>
    if c =? 10 then cur :: lines_from [] out' else lines_from (cur ++ [c]) out'
  end.

Definition printed_lines (out : str) : list str :=
  filter truthy (lines_from [] out).

(** Two requested levels that differ in letter case only: the same length,
    and at every position two characters with the same upper-case form. *)
Definition same_up_to_case `{CaseTable} (a b : str) : Prop :=
  Forall2 (fun x y => to_upper_full x = to_upper_full y) a b.

(* ===================================================================== *)
(** ** The entry point of the script                                      *)
(* ===================================================================== *)

Module LoggerMain.

(** How a run of [main] ends: it returns, it leaves through [sys.exit], or
    an exception that nothing catches ends it. *)
Inductive outcome : Type :=
| Returned
| Exited (status : Z)
| Uncaught (e : exn).

Definition usage : str :=
  py "Usage: python 03_script_logger.py <log_file_path> [log_level]".

(** The end of a printing computation, seen from [main]. *)
Definition finish (r : result unit * str) : outcome * str :=
  match r with
  | (Ok _, out) => (Returned, out)
  | (Raise e, out) => (Uncaught e, out)
  end.

(** [main], for the arguments [sys.argv] (the script name first).  The
    [except] clause names [FileNotFoundError], [PermissionError] and
    [OSError]; a [ValueError] of [load_logs] is not caught.  The level is
    read only when there are exactly three arguments. *)
Definition main `{CaseTable} (fs : filesystem) (argv : list str)
    : str -> outcome * str :=
  fun out =>
  match argv with
  | [] | [_] => (Exited 1, snd (print usage out))
  | _ :: file_path :: rest =>
    match load_logs fs file_path with
    | Raise (FileNotFoundError e) | Raise (PermissionError e)
    | Raise (OSError e) =>
      (Exited 1, snd (print (py "Error: " ++ e) out))
    | Raise e => (Uncaught e, out)
    | Ok logs =>
      match rest with
      | [lvl] =>
        let filtered := filter_logs_by_level logs lvl in
        finish (display_filtered_logs filtered lvl out)
      | _ =>
        let counts := count_logs_by_level logs in
        finish (display_log_counts counts out)
      end
    end
  end.

End LoggerMain.

Import LoggerMain.

(** A level with an ASCII lower-case letter in it. *)
Definition has_ascii_lower (s : str) : Prop :=
  exists c, In c s /\ 97 <= c <= 122.

(** The number of lines of a file that are not blank. *)
Definition non_blank_count (file : list str) : nat :=
  length (filter (fun line => negb (is_blank line)) file).

(* ===================================================================== *)
(** ** The assistant bot (04_bot_cli/bot_cli.py)                          *)
(* ===================================================================== *)

Module BotCli.

(** What the bot needs of the Unicode database: [str.lower] (not a map over
    the characters: a final sigma depends on its context) and the digit
    property behind [str.isdigit].  On ASCII, [lower] maps [A-Z] to [a-z]
    and the digits are [0-9]. *)
Definition ascii_lower (c : N) : N :=
  if (65 <=? c) && (c <=? 90) then c + 32 else c.

Definition ascii_digit (c : N) : bool := (48 <=? c) && (c <=? 57).

Class TextTables : Type := {
  lower : str -> str;
  lower_ascii :
    forall s, Forall (fun c => c < 128) s -> lower s = map ascii_lower s;
  is_digit_char : N -> bool;
  is_digit_ascii : forall c, c < 128 -> is_digit_char c = ascii_digit c
}.

(** [s.isdigit()]: at least one character, and digits only. *)
Definition isdigit `{TextTables} (s : str) : bool :=
  match s with
  | [] => false
  | _ :: _ => forallb is_digit_char s
  end.

(** The exceptions of the bot.  [KeyError] holds its arguments: none for
    [raise KeyError], the key for a failed lookup. *)
Inductive exc : Type :=
| ValueError (msg : str)
| KeyError (args : list str)
| IndexError (msg : str)
| EOFError.

Inductive res (A : Type) : Type :=
| Return (a : A)
| Raised (e : exc).

Arguments Return {A} a.
Arguments Raised {A} e.

(** The contacts: a [dict] from name to phone, in insertion order. *)
Definition Contacts : Type := list (str * str).

(** [contacts.get(name)], [name in contacts], [contacts[name] = phone]. *)
Fixpoint lookup (contacts : Contacts) (name : str) : option str :=
  match contacts with
  | [] => None
  | (n, p) :: rest => if str_eq_dec name n then Some p else lookup rest name
  end.

Definition contains (contacts : Contacts) (name : str) : bool :=
  match lookup contacts name with
  | Some _ => true
  | None => false
  end.

Fixpoint store (contacts : Contacts) (name phone : str) : Contacts :=
  match contacts with
  | [] => [(name, phone)]
  | (n, p) :: rest =>
    if str_eq_dec name n then (name, phone) :: rest
    else (n, p) :: store rest name phone
  end.

(** The outcome of a command: what it returns or raises, and the contacts
    as it leaves them. *)
Definition answer : Type := res str * Contacts.

(** The decorator [input_error]: the three exceptions it names become
    messages; anything else passes through. *)
Definition input_error {X : Type} (func : X -> answer) (x : X) : answer :=
  match func x with
  | (Return s, contacts) => (Return s, contacts)
  | (Raised (KeyError _), contacts) =>
    (Return (py "Contact not found."), contacts)
  | (Raised (IndexError _), contacts) =>
    (Return (py "Enter the required arguments for this command."), contacts)
  | (Raised (ValueError e), contacts) =>
    (Return (if truthy e then e else py "Invalid input."), contacts)
  | (Raised e, contacts) => (Raised e, contacts)
  end.

(** [parse_input]: the tuple [(cmd, *args)] as a list.  Unpacking
    [cmd, *args] from no word at all raises [ValueError]. *)
Definition parse_input `{TextTables} (user_input : str) : res (list str) :=
  match split user_input with
  | [] =>
    Raised (ValueError
              (py "not enough values to unpack (expected at least 1, got 0)"))
  | cmd :: args =>
    let cmd := lower (strip cmd) in
    Return (cmd :: args)
  end.

Definition validate_phone `{TextTables} (phone : str) : res unit :=
  if negb (isdigit phone)
  then Raised (ValueError
                 (py "Wrong phone format. It must contain only digits."))
  else if negb (length phone =? 10)%nat
  then Raised (ValueError
                 (py "Wrong phone format. It must contain 10 digits."))
  else Return tt.

(** Unpacking a list into two names; the functions below check the length
    first, so the failure is never seen. *)
Definition unpack2 (args : list str) : res (str * str) :=
  match args with
  | [a; b] => Return (a, b)
  | [] =>
    Raised (ValueError (py "not enough values to unpack (expected 2, got 0)"))
  | [_] =>
    Raised (ValueError (py "not enough values to unpack (expected 2, got 1)"))
  | _ => Raised (ValueError (py "too many values to unpack (expected 2)"))
  end.

Definition add_contact `{TextTables} : list str * Contacts -> answer :=
  input_error (fun '(args, contacts) =>
    if negb (length args =? 2)%nat
    then (Raised (ValueError (py "Give me name and phone please.")), contacts)
    else
      match unpack2 args with
      | Raised e => (Raised e, contacts)
      | Return (name, phone) =>
        match validate_phone phone with
        | Raised e => (Raised e, contacts)
        | Return _ =>
          (Return (py "Contact added."), store contacts name phone)
        end
      end).

Definition change_contact `{TextTables} : list str * Contacts -> answer :=
  input_error (fun '(args, contacts) =>
    if negb (length args =? 2)%nat
    then (Raised (ValueError (py "Give me name and new phone please.")),
          contacts)
    else
      match unpack2 args with
      | Raised e => (Raised e, contacts)
      | Return (name, phone) =>
        if negb (contains contacts name)
        then (Raised (KeyError []), contacts)
        else
          match validate_phone phone with
          | Raised e => (Raised e, contacts)
          | Return _ =>
            (Return (py "Contact updated."), store contacts name phone)
          end
      end).

Definition show_phone : list str * Contacts -> answer :=
  input_error (fun '(args, contacts) =>
    if negb (length args =? 1)%nat
    then (Raised (ValueError (py "Enter user name.")), contacts)
    else
      match args with
      | [] => (Raised (IndexError (py "list index out of range")), contacts)
      | name :: _ =>
        match lookup contacts name with
        | None => (Raised (KeyError [name]), contacts)
        | Some phone => (Return (name ++ py ": " ++ phone), contacts)
        end
      end).

(** [a < b] on pairs of strings: by the first components when they
    differ, else by the second ones. *)
Definition item_ltb (a b : str * str) : bool :=
  if str_eq_dec (fst a) (fst b) then str_ltb (snd a) (snd b)
  else str_ltb (fst a) (fst b).

(** [sorted(contacts.items())], stable and by [<] only, as [sorted] on
    strings above. *)
Fixpoint insert_item (x : str * str) (l : list (str * str))
    : list (str * str) :=
  match l with
  | [] => [x]
  | y :: l' => if item_ltb y x then y :: insert_item x l' else x :: l
  end.

Definition sorted_items (items : list (str * str)) : list (str * str) :=
  fold_right insert_item [] items.

(** [sep.join(items)]. *)
Fixpoint join (sep : str) (items : list str) : str :=
  match items with
  | [] => []
  | [x] => x
  | x :: rest => x ++ sep ++ join sep rest
  end.

Definition show_all : Contacts -> answer :=
  input_error (fun contacts =>
    match contacts with
    | [] => (Return (py "No contacts found."), contacts)
    | _ :: _ =>
      (Return (join [10]
                 (map (fun '(name, phone) => name ++ py ": " ++ phone)
                      (sorted_items contacts))),
       contacts)
    end).

Definition show_help : str :=
  py "
Available commands:
- hello: Greet the bot
- add [name] [phone]: Add a new contact
- change [name] [new_phone]: Change an existing contact's phone number
- phone [name]: Show the phone number of a contact
- all: Show all contacts
- help: Show this help message
- close, exit: Exit the bot
".

(** The table [commands] of [main], and the lookup in it. *)
Definition commands `{TextTables}
    : list (str * (list str -> Contacts -> answer)) :=
  [ (py "hello", fun args contacts => (Return (py "How can I help you?"), contacts));
    (py "add", fun args contacts => add_contact (args, contacts));
    (py "change", fun args contacts => change_contact (args, contacts));
    (py "phone", fun args contacts => show_phone (args, contacts));
    (py "all", fun args contacts => show_all contacts);
    (py "help", fun args contacts => (Return show_help, contacts)) ].

Fixpoint find_command {V : Type} (table : list (str * V)) (command : str)
    : option V :=
  match table with
  | [] => None
  | (k, v) :: rest =>
    if str_eq_dec command k then Some v else find_command rest command
  end.

(** How a session ends: with the farewell, or with an exception that
    nothing catches. *)
Inductive ending : Type :=
| Finished
| Crashed (e : exc).

Definition prompt : str := py "Enter a command: ".

(** The loop of [main] over the lines the user types.  [input] writes the
    prompt and raises [EOFError] when no line is left. *)
Fixpoint loop `{TextTables} (inputs : list str) (contacts : Contacts)
    (out : str) : ending * Contacts * str :=
  match inputs with
  | [] => (Crashed EOFError, contacts, out ++ prompt)
  | user_input :: rest =>
    let out := out ++ prompt in
    match parse_input user_input with
    | Raised e => (Crashed e, contacts, out)
    | Return [] =>
      (Crashed (ValueError
                  (py "not enough values to unpack (expected at least 1, got 0)")),
       contacts, out)
    | Return (command :: args) =>
      if existsb (str_eqb command) [py "close"; py "exit"]
      then (Finished, contacts, out ++ py "Good bye!" ++ [10])
      else
        match find_command commands command with
        | Some handler =>
          match handler args contacts with
          | (Return message, contacts') =>
            loop rest contacts' (out ++ message ++ [10])
          | (Raised e, contacts') => (Crashed e, contacts', out)
          end
        | None =>
          loop rest contacts
            (out ++ py "Invalid command. Please use one of the following commands:"
                 ++ [10] ++ show_help ++ [10])
        end
    end
  end.

Definition main `{TextTables} (inputs : list str) : ending * Contacts * str :=
  loop inputs []
    (py "Welcome to the assistant bot!" ++ [10] ++ show_help ++ [10]).

(** The tables restricted to ASCII, for running the definitions. *)
Definition ascii_tables : TextTables :=
  {| lower := map ascii_lower;
     lower_ascii := fun s _ => eq_refl;
     is_digit_char := ascii_digit;
     is_digit_ascii := fun c _ => eq_refl |}.

(** A phone number that [validate_phone] accepts. *)
Definition valid_phone `{TextTables} (phone : str) : Prop :=
  isdigit phone = true /\ length phone = 10%nat.

Definition names (contacts : Contacts) : list str := map fst contacts.

(** Contacts as the bot keeps them: every name once, every phone valid. *)
Definition well_formed `{TextTables} (contacts : Contacts) : Prop :=
  NoDup (names contacts)
  /\ Forall (fun item => valid_phone (snd item)) contacts.

(** The line of [show_all] for one contact. *)
Definition item_line (item : str * str) : str :=
  fst item ++ py ": " ++ snd item.

(** [a <= b] on items, that is [not (b < a)]; and the order of two items
    by their names alone. *)
Definition item_le (a b : str * str) : Prop := item_ltb b a = false.
Definition name_lt (a b : str * str) : Prop := str_lt (fst a) (fst b).

(** The messages of the commands. *)
Definition contact_added : str := py "Contact added.".
Definition contact_updated : str := py "Contact updated.".
Definition contact_not_found : str := py "Contact not found.".
Definition only_digits : str :=
  py "Wrong phone format. It must contain only digits.".
Definition ten_digits : str :=
  py "Wrong phone format. It must contain 10 digits.".
Definition no_word : exc :=
  ValueError (py "not enough values to unpack (expected at least 1, got 0)").

End BotCli.

(* ===================================================================== *)
(** ** Facts about strings                                                *)
(* ===================================================================== *)

Section StringFacts.

Variable p : N -> bool.

Lemma take_drop_while (s : str) : take_while p s ++ drop_while p s = s.
Proof.
  induction s as [|c s IH]; simpl; [reflexivity|].
  destruct (p c); simpl; [now rewrite IH | reflexivity].
Qed.

Lemma take_while_all (s : str) : Forall (fun c => p c = true) (take_while p s).
Proof.
  induction s as [|c s IH]; simpl; [constructor|].
  destruct (p c) eqn:E; constructor; assumption.
Qed.

Lemma drop_while_head (s : str) c r : drop_while p s = c :: r -> p c = false.
Proof.
  induction s as [|d s IH]; simpl; [discriminate|].
  destruct (p d) eqn:E; [assumption|]. intros [= <- _]. exact E.
Qed.

Lemma drop_while_length (s : str) : (length (drop_while p s) <= length s)%nat.
Proof.
  induction s as [|c s IH]; simpl; [lia|]. destruct (p c); simpl; lia.
Qed.

End StringFacts.


Lemma non_space_false c : non_space c = false <-> is_space c = true.
Proof. unfold non_space. destruct (is_space c); simpl; intuition congruence. Qed.

Lemma non_space_true c : non_space c = true <-> is_space c = false.
Proof. unfold non_space. destruct (is_space c); simpl; intuition congruence. Qed.

Lemma take_while_non_space (s : str) : no_space (take_while non_space s).
Proof.
  unfold no_space. eapply Forall_impl; [|apply take_while_all].
  intros c. apply non_space_true.
Qed.

Lemma lstrip_split (s : str) :
  s = take_while is_space s ++ lstrip s /\ all_space (take_while is_space s)
  /\ head_is not_sp (lstrip s).
Proof.
  unfold lstrip. repeat split.
  - symmetry. apply take_drop_while.
  - apply take_while_all.
  - destruct (drop_while is_space s) as [|c r] eqn:E; simpl; [exact I|].
    eapply drop_while_head; eassumption.
Qed.

Lemma lstrip_head (s : str) :
  head_is not_sp s -> lstrip s = s.
Proof. unfold lstrip. destruct s as [|c s]; simpl; [reflexivity|]. now intros ->. Qed.

Lemma rstrip_cons_non_space c (s : str) :
  is_space c = false -> rstrip (c :: s) = c :: rstrip s.
Proof. intros H. simpl. rewrite H. now destruct (rstrip s). Qed.

Lemma rstrip_split (s : str) :
  exists trail, s = rstrip s ++ trail /\ all_space trail.
Proof.
  induction s as [|c s (trail & Hs & Ht)]; [exists []; split; [reflexivity|constructor]|].
  simpl. destruct (rstrip s) as [|d r] eqn:E.
  - destruct (is_space c) eqn:Ec.
    + exists (c :: s). split; [reflexivity|]. simpl in Hs. subst trail.
      constructor; assumption.
    + exists trail. split; [|assumption]. simpl in *. congruence.
  - exists trail. split; [|assumption]. simpl. now rewrite Hs at 1.
Qed.

Lemma rstrip_last (s : str) : last_is not_sp (rstrip s).
Proof.
  induction s as [|c s IH]; [now left|].
  simpl. destruct (rstrip s) as [|d r] eqn:E.
  - destruct (is_space c) eqn:Ec; [now left|].
    right. exists [], c. now split.
  - right. destruct IH as [IH | (s' & e & Hs & He)]; [discriminate|].
    exists (c :: s'), e. split; [|assumption]. simpl. now rewrite Hs.
Qed.

Lemma rstrip_head (s : str) :
  head_is not_sp s ->
  head_is not_sp (rstrip s).
Proof.
  destruct s as [|c s]; [trivial|]. simpl. intros H.
  rewrite H. now destruct (rstrip s).
Qed.

(** A stripped string neither starts nor ends with whitespace, and the
    given string is the stripped one between two runs of whitespace. *)
Lemma strip_split (s : str) :
  exists lead trail,
    s = lead ++ strip s ++ trail /\ all_space lead /\ all_space trail
    /\ head_is not_sp (strip s)
    /\ last_is not_sp (strip s).
Proof.
  unfold strip. destruct (lstrip_split s) as (H1 & H2 & H3).
  destruct (rstrip_split (lstrip s)) as (trail & H4 & H5).
  exists (take_while is_space s), trail. repeat split; try assumption.
  - rewrite <- H4. exact H1.
  - now apply rstrip_head.
  - apply rstrip_last.
Qed.

(** *** Tokens *)

Lemma tokens_from_cur (s cur : str) :
  cur <> [] ->
  tokens_from cur s
  = (cur ++ take_while non_space s) :: tokens (drop_while non_space s).
Proof.
  revert cur. induction s as [|c s IH]; intros cur Hcur; simpl.
  - rewrite app_nil_r. now destruct cur.
  - unfold non_space at 1 3. destruct (is_space c) eqn:Ec; simpl.
    + rewrite app_nil_r. unfold tokens. simpl. rewrite Ec. now destruct cur.
    + rewrite IH by (now destruct cur). now rewrite <- app_assoc.
Qed.

Lemma tokens_lstrip (s : str) : tokens (lstrip s) = tokens s.
Proof.
  unfold tokens, lstrip. induction s as [|c s IH]; simpl; [reflexivity|].
  destruct (is_space c) eqn:Ec; [assumption|]. simpl. now rewrite Ec.
Qed.

Lemma tokens_unfold (s : str) :
  tokens s = match lstrip s with
             | [] => []
             | r => take_while non_space r :: tokens (drop_while non_space r)
             end.
Proof.
  rewrite <- (tokens_lstrip s).
  destruct (lstrip_split s) as (_ & _ & Hh).
  destruct (lstrip s) as [|c r]; [reflexivity|]. simpl in Hh.
  unfold tokens at 1. simpl. rewrite Hh.
  rewrite tokens_from_cur by discriminate.
  now rewrite (proj2 (non_space_true c) Hh).
Qed.

Lemma tokens_from_rstrip (s cur : str) :
  tokens_from cur (rstrip s) = tokens_from cur s.
Proof.
  revert cur. induction s as [|c s IH]; intros cur; [reflexivity|].
  simpl. destruct (rstrip s) as [|d r] eqn:E.
  - destruct (is_space c) eqn:Ec; simpl.
    + rewrite <- (IH []). now destruct cur.
    + rewrite Ec. now rewrite <- IH.
  - simpl. destruct (is_space c); [destruct cur|]; now rewrite <- ?IH.
Qed.

(** Stripping does not change the tokens of a line. *)
Lemma tokens_strip (s : str) : tokens (strip s) = tokens s.
Proof.
  unfold strip, tokens at 1. rewrite tokens_from_rstrip. apply tokens_lstrip.
Qed.

(** Cutting at most [n] times gives the first [n] tokens and, if more text
    follows, one more item. *)
Lemma split_ws_length (n : nat) (s : str) :
  length (split_ws n s) = Nat.min (S n) (length (tokens s)).
Proof.
  revert s. induction n as [|n IH]; intros s; simpl split_ws;
    rewrite (tokens_unfold s); destruct (lstrip s) as [|c r]; simpl length;
    try reflexivity.
  rewrite IH. lia.
Qed.

(** [s.split()] yields the tokens of [s]. *)
Lemma split_ws_tokens (n : nat) (s : str) :
  (length s <= n)%nat -> split_ws n s = tokens s.
Proof.
  revert s. induction n as [|n IH]; intros s Hn.
  - destruct s; [reflexivity | simpl in Hn; lia].
  - simpl. rewrite (tokens_unfold s).
    destruct (lstrip_split s) as (Hs & _ & Hh).
    destruct (lstrip s) as [|c r] eqn:E; [reflexivity|]. simpl in Hh. simpl.
    rewrite (proj2 (non_space_true c) Hh). f_equal. apply IH.
    pose proof (drop_while_length non_space r).
    apply (f_equal (@length N)) in Hs. rewrite length_app in Hs. simpl in *. lia.
Qed.

Lemma split_tokens (s : str) : split s = tokens s.
Proof. apply split_ws_tokens. lia. Qed.


(** *** One cut of [split_ws] *)


Lemma split_ws_S (m : nat) (s : str) :
  (split_ws (S m) s = [] /\ tokens s = [])
  \/ exists lead w rest,
       s = lead ++ w ++ rest /\ all_space lead /\ word w /\ head_is is_sp rest
       /\ split_ws (S m) s = w :: split_ws m rest
       /\ tokens s = w :: tokens rest.
Proof.
  simpl. rewrite (tokens_unfold s).
  destruct (lstrip_split s) as (Hs & Hlead & Hh).
  destruct (lstrip s) as [|c r] eqn:E; [now left|right].
  exists (take_while is_space s), (take_while non_space (c :: r)),
         (drop_while non_space (c :: r)).
  repeat split; try assumption.
  - now rewrite take_drop_while.
  - simpl in *. now rewrite (proj2 (non_space_true c) Hh).
  - apply take_while_non_space.
  - destruct (drop_while non_space (c :: r)) as [|d r'] eqn:E'; [exact I|].
    simpl. apply non_space_false. eapply drop_while_head; eassumption.
Qed.

Lemma split_ws_O (s : str) :
  (split_ws 0 s = [] /\ tokens s = [])
  \/ exists lead r,
       s = lead ++ r /\ all_space lead /\ r <> [] /\ head_is not_sp r
       /\ split_ws 0 s = [r] /\ tokens s <> [].
Proof.
  simpl. rewrite (tokens_unfold s).
  destruct (lstrip_split s) as (Hs & Hlead & Hh).
  destruct (lstrip s) as [|c r] eqn:E; [now left|right].
  exists (take_while is_space s), (c :: r).
  repeat split; try assumption; discriminate.
Qed.

Lemma lead_gap (lead r : str) :
  all_space lead -> r <> [] -> head_is not_sp r -> head_is is_sp (lead ++ r) ->
  gap lead.
Proof.
  intros Hl Hr Hn Hs. split; [|assumption].
  intros ->. destruct r as [|c r]; [congruence|].
  simpl in *. unfold is_sp, not_sp in *. congruence.
Qed.

Lemma lead_nil (lead r : str) :
  all_space lead -> r <> [] -> head_is not_sp (lead ++ r) -> lead = [].
Proof.
  intros Hl Hr Hn. destruct lead as [|c lead]; [reflexivity|].
  inversion Hl; subst. simpl in Hn. unfold not_sp in Hn. congruence.
Qed.

Lemma word_head (w rest : str) :
  word w -> w ++ rest <> [] /\ head_is not_sp (w ++ rest).
Proof.
  intros [Hw Hn]. destruct w as [|c w]; [congruence|].
  split; [discriminate|]. inversion Hn; subst. assumption.
Qed.

Lemma last_is_app (P : N -> Prop) (a b : str) :
  b <> [] -> last_is P (a ++ b) -> last_is P b.
Proof.
  intros Hb [H | (s' & c & H & Hc)].
  - apply app_eq_nil in H. tauto.
  - right. destruct (exists_last Hb) as (b' & d & ->).
    rewrite app_assoc in H. apply app_inj_tail in H as [_ ->].
    now exists b', c.
Qed.


(** Both outcomes of [parse_log_line], by the number of tokens. *)
Lemma parse_log_line_cases (line : str) :
  ((length (tokens (strip line)) < 4)%nat
   /\ parse_log_line line = Raise (invalid_log_format line))
  \/ ((4 <= length (tokens (strip line)))%nat
      /\ exists e, parse_log_line line = Ok e
                   /\ log_line_shape (strip line) e).
Proof.
  unfold parse_log_line, invalid_log_format.
  destruct (strip_split line) as (_ & _ & _ & _ & _ & Hhead & Hlast).
  destruct (split_ws_S 2 (strip line))
    as [[-> ->] | (l0 & d & r1 & Hs & Hl0 & Hd & Hr1 & -> & ->)];
    [left; simpl; split; [lia|reflexivity]|].
  destruct (split_ws_S 1 r1)
    as [[-> ->] | (l1 & t & r2 & -> & Hl1 & Ht & Hr2 & -> & ->)];
    [left; simpl; split; [lia|reflexivity]|].
  destruct (split_ws_S 0 r2)
    as [[-> ->] | (l2 & lv & r3 & -> & Hl2 & Hlv & Hr3 & -> & ->)];
    [left; simpl; split; [lia|reflexivity]|].
  destruct (split_ws_O r3)
    as [[-> ->] | (l3 & m & -> & Hl3 & Hm & Hhm & -> & Htok)];
    [left; simpl; split; [lia|reflexivity]|].
  right. split; [destruct (tokens (l3 ++ m)); [congruence | simpl; lia]|].
  eexists. split; [reflexivity|]. simpl.
  destruct (word_head t (l2 ++ lv ++ l3 ++ m) Ht) as [Ht1 Ht2].
  destruct (word_head lv (l3 ++ m) Hlv) as [Hlv1 Hlv2].
  assert (l0 = []) as ->.
  { rewrite Hs in Hhead.
    destruct (word_head d (l1 ++ t ++ l2 ++ lv ++ l3 ++ m) Hd).
    eapply lead_nil; eassumption. }
  pose proof (lead_gap l1 _ Hl1 Ht1 Ht2 Hr1) as G1.
  pose proof (lead_gap l2 _ Hl2 Hlv1 Hlv2 Hr2) as G2.
  pose proof (lead_gap l3 _ Hl3 Hm Hhm Hr3) as G3.
  exists l1, l2, l3. simpl in Hs. repeat split;
    try apply Hd; try apply Ht; try apply Hlv;
    try apply G1; try apply G2; try apply G3; try assumption.
  rewrite Hs in Hlast. revert Hlast.
  replace (d ++ l1 ++ t ++ l2 ++ lv ++ l3 ++ m)
    with ((d ++ l1 ++ t ++ l2 ++ lv ++ l3) ++ m)
    by (now rewrite <- !app_assoc).
  now apply last_is_app.
Qed.

(** *** Blank lines *)

Lemma truthy_strip (line : str) : truthy (strip line) = negb (is_blank line).
Proof.
  unfold strip, lstrip, is_blank.
  induction line as [|c line IH]; [reflexivity|]. simpl.
  destruct (is_space c) eqn:Ec; [exact IH|].
  rewrite rstrip_cons_non_space by assumption. reflexivity.
Qed.

(** *** The list comprehension *)

Section ListComp.

Context {A B : Type} (f : A -> result B) (cond : A -> bool).

Lemma list_comp_ok (xs : list A) (acc : list B) :
  Forall (fun x => cond x = true -> exists y, f x = Ok y) xs ->
  exists ys, list_comp f cond xs acc = Ok (acc ++ ys)
             /\ Forall2 (fun x y => f x = Ok y) (filter cond xs) ys.
Proof.
  intros H. revert acc. induction H as [|x xs Hx _ IH]; intros acc; simpl.
  - exists []. rewrite app_nil_r. split; constructor.
  - destruct (cond x) eqn:Ec; [|apply IH].
    destruct (Hx eq_refl) as (y & Hy). rewrite Hy.
    destruct (IH (acc ++ [y])) as (ys & Hys & HF).
    exists (y :: ys). rewrite Hys, <- app_assoc. split; [reflexivity|].
    now constructor.
Qed.

Lemma list_comp_raise (pre post : list A) (bad : A) (e : exn) (acc : list B) :
  Forall (fun x => cond x = true -> exists y, f x = Ok y) pre ->
  cond bad = true -> f bad = Raise e ->
  list_comp f cond (pre ++ bad :: post) acc = Raise e.
Proof.
  intros H Hc Hb. revert acc. induction H as [|x xs Hx _ IH]; intros acc; simpl.
  - now rewrite Hc, Hb.
  - destruct (cond x) eqn:Ec; [|apply IH].
    destruct (Hx eq_refl) as (y & ->). apply IH.
Qed.

End ListComp.

Lemma acceptable_parses (line : str) :
  acceptable line ->
  truthy (strip line) = true -> exists e, parse_log_line line = Ok e.
Proof.
  intros [Hb | Ht] Hs.
  - rewrite truthy_strip, Hb in Hs. discriminate.
  - destruct (parse_log_line_cases line) as [[Hlt _] | [_ (e & He & _)]];
      [lia | now exists e].
Qed.

Lemma load_logs_lines (fs : filesystem) (file_path : str) (file : list str) :
  fs file_path = inr file ->
  load_logs fs file_path
  = list_comp parse_log_line (fun line => truthy (strip line)) file [].
Proof. unfold load_logs. now intros ->. Qed.

Lemma filter_not_blank (file : list str) :
  filter (fun line => truthy (strip line)) file
  = filter (fun line => negb (is_blank line)) file.
Proof. apply filter_ext. intros line. apply truthy_strip. Qed.

Lemma blank_iff_strip_empty (line : str) :
  is_blank line = true <-> strip line = [].
Proof.
  pose proof (truthy_strip line) as H.
  destruct (strip line), (is_blank line); simpl in H; split; congruence.
Qed.

Lemma acceptable_or_malformed (line : str) : acceptable line \/ malformed line.
Proof.
  unfold acceptable, malformed.
  destruct (is_blank line); [now left; left|].
  destruct (Nat.lt_ge_cases (length (tokens (strip line))) 4); auto.
Qed.

(** A file with a malformed line has a first one. *)
Lemma first_malformed (file : list str) :
  Exists malformed file ->
  exists pre bad post,
    file = pre ++ bad :: post /\ Forall acceptable pre /\ malformed bad.
Proof.
  induction file as [|line file IH]; intros HE; [inversion HE|].
  destruct (acceptable_or_malformed line) as [Ha | Hm].
  - inversion HE as [? ? Hm | ? ? HE']; subst.
    + destruct Ha as [Hb | Ht], Hm as [Hb' Ht']; [congruence | lia].
    + destruct (IH HE') as (pre & bad & post & -> & Hpre & Hbad).
      exists (line :: pre), bad, post.
      split; [reflexivity|]. split; [now constructor | assumption].
  - exists [], line, file.
    split; [reflexivity|]. split; [constructor | assumption].
Qed.

Lemma load_logs_raises (fs : filesystem) (file_path : str)
    (pre post : list str) (bad : str) :
  fs file_path = inr (pre ++ bad :: post) ->
  Forall acceptable pre -> malformed bad ->
  load_logs fs file_path = Raise (invalid_log_format bad).
Proof.
  intros Hfs Hpre [Hblank Hbad].
  rewrite (load_logs_lines _ _ _ Hfs). apply list_comp_raise.
  - eapply Forall_impl; [|exact Hpre]. intros line Hl Ht.
    now apply acceptable_parses.
  - now rewrite truthy_strip, Hblank.
  - destruct (parse_log_line_cases bad) as [[_ He] | [Hge _]];
      [exact He | lia].
Qed.

(* ===================================================================== *)
(** ** Parsing one line                                                   *)
(* ===================================================================== *)

(** C1: a line with fewer than four whitespace-delimited tokens (counted on
    the stripped line) makes [parse_log_line] raise the format error that
    carries the line as given; a line with four tokens or more is parsed
    into an entry. *)
Theorem parse_log_line_token_count (line : str) :
  ((length (tokens (strip line)) < 4)%nat ->
     parse_log_line line = Raise (ValueError (py "Invalid log format: " ++ line)))
  /\ ((4 <= length (tokens (strip line)))%nat ->
        exists entry, parse_log_line line = Ok entry).
Proof.
  destruct (parse_log_line_cases line) as [[Hlt He] | [Hge (e & He & _)]].
  - split; [intros _; exact He | lia].
  - split; [lia | intros _; now exists e].
Qed.

Lemma parse_log_line_token_count_witness :
  ((length (tokens (strip line_three_tokens)) < 4)%nat
   /\ parse_log_line line_three_tokens
      = Raise (ValueError (py "Invalid log format: " ++ line_three_tokens)))
  /\ ((4 <= length (tokens (strip line_info)))%nat
      /\ exists entry, parse_log_line line_info = Ok entry).
Proof.
  split; split.
  - vm_compute. lia.
  - apply (proj1 (parse_log_line_token_count line_three_tokens)).
    vm_compute. lia.
  - vm_compute. lia.
  - apply (proj2 (parse_log_line_token_count line_info)).
    vm_compute. lia.
Defined.

(** C3: for a line with four tokens or more, the line is: whitespace, the
    date, a gap, the time, a gap, the level, a gap, the message, whitespace;
    the message of the returned entry is that stretch of the line, from the
    first character after the gap that follows the third token to the last
    character of the line that is not whitespace, with the whitespace inside
    it kept as it is. *)
Theorem parse_log_line_message_verbatim (line : str) :
  (4 <= length (tokens (strip line)))%nat ->
  exists entry lead g1 g2 g3 trail,
    parse_log_line line = Ok entry
    /\ line = lead ++ date entry ++ g1 ++ time entry ++ g2 ++ level entry
                ++ g3 ++ message entry ++ trail
    /\ all_space lead /\ all_space trail
    /\ word (date entry) /\ gap g1 /\ word (time entry) /\ gap g2
    /\ word (level entry) /\ gap g3
    /\ message entry <> []
    /\ head_is not_sp (message entry) /\ last_is not_sp (message entry).
Proof.
  intros Hge.
  destruct (parse_log_line_cases line) as [[Hlt _] | [_ (e & He & Hshape)]];
    [lia|].
  destruct Hshape as (g1 & g2 & g3 & Hs & H).
  destruct (strip_split line) as (lead & trail & Hline & Hlead & Htrail & _).
  exists e, lead, g1, g2, g3, trail.
  split; [exact He|]. split.
  - rewrite Hline at 1. rewrite Hs. now rewrite <- !app_assoc.
  - tauto.
Qed.

Lemma parse_log_line_message_verbatim_witness :
  (4 <= length (tokens (strip line_spaced)))%nat
  /\ exists entry lead g1 g2 g3 trail,
    parse_log_line line_spaced = Ok entry
    /\ line_spaced
       = lead ++ date entry ++ g1 ++ time entry ++ g2 ++ level entry
              ++ g3 ++ message entry ++ trail
    /\ all_space lead /\ all_space trail
    /\ word (date entry) /\ gap g1 /\ word (time entry) /\ gap g2
    /\ word (level entry) /\ gap g3
    /\ message entry <> []
    /\ head_is not_sp (message entry) /\ last_is not_sp (message entry).
Proof.
  split; [vm_compute; lia|].
  apply (parse_log_line_message_verbatim line_spaced).
  vm_compute. lia.
Defined.

(** C9: the four fields of an entry that [parse_log_line] returns are
    non-empty, and a line with fewer than four tokens gives no entry at
    all: the call raises the format error. *)
Theorem parse_log_line_fields_nonempty (line : str) :
  (forall entry, parse_log_line line = Ok entry ->
     date entry <> [] /\ time entry <> [] /\ level entry <> []
     /\ message entry <> [])
  /\ ((length (tokens (strip line)) < 4)%nat ->
        parse_log_line line = Raise (ValueError (py "Invalid log format: " ++ line))
        /\ forall entry, parse_log_line line <> Ok entry).
Proof.
  destruct (parse_log_line_cases line) as [[Hlt He] | [Hge (e & He & Hshape)]].
  - split.
    + intros entry H. rewrite He in H. discriminate.
    + intros _. split; [exact He|]. intros entry H. rewrite He in H.
      discriminate.
  - split; [|lia].
    intros entry H. rewrite He in H. injection H as <-.
    destruct Hshape as (g1 & g2 & g3 & _ & Hd & _ & Ht & _ & Hl & _ & Hm & _).
    unfold word in *. tauto.
Qed.

Lemma parse_log_line_fields_nonempty_witness :
  (forall entry, parse_log_line line_error1 = Ok entry ->
     date entry <> [] /\ time entry <> [] /\ level entry <> []
     /\ message entry <> [])
  /\ ((length (tokens (strip line_three_tokens)) < 4)%nat
      /\ forall entry, parse_log_line line_three_tokens <> Ok entry).
Proof.
  split; [|split].
  - apply (proj1 (parse_log_line_fields_nonempty line_error1)).
  - vm_compute. lia.
  - apply (proj2 (parse_log_line_fields_nonempty line_three_tokens)).
    vm_compute. lia.
Defined.

(* ===================================================================== *)
(** ** Loading a file                                                     *)
(* ===================================================================== *)

(** C2: [load_logs] parses the lines that are not blank in the order of
    the file, and the first one that is malformed ends the load: when [bad]
    is the first malformed line, whatever precedes and follows it, the
    outcome is the format error of [bad].  So a file with a malformed line
    anywhere gives the format error of one of its lines and never a list of
    entries, not even of the lines before it. *)
Theorem load_logs_aborts_on_first_malformed
    (fs : filesystem) (file_path : str) (file : list str) :
  fs file_path = inr file ->
  (forall pre bad post,
     file = pre ++ bad :: post -> Forall acceptable pre -> malformed bad ->
     load_logs fs file_path
     = Raise (ValueError (py "Invalid log format: " ++ bad)))
  /\ (Exists malformed file ->
        (exists bad, In bad file /\ malformed bad
           /\ load_logs fs file_path
              = Raise (ValueError (py "Invalid log format: " ++ bad)))
        /\ forall logs, load_logs fs file_path <> Ok logs).
Proof.
  intros Hfs. split.
  - intros pre bad post -> Hpre Hbad.
    now apply (load_logs_raises fs file_path pre post bad).
  - intros HE.
    destruct (first_malformed file HE) as (pre & bad & post & -> & Hpre & Hbad).
    pose proof (load_logs_raises fs file_path pre post bad Hfs Hpre Hbad) as HR.
    split.
    + exists bad. split; [apply in_or_app; right; now left|].
      split; [assumption | exact HR].
    + intros logs HO. rewrite HR in HO. discriminate.
Qed.

Lemma load_logs_aborts_on_first_malformed_witness :
  (Forall acceptable [line_info; [10]] /\ malformed line_three_tokens)
  /\ load_logs (on_disk ([line_info; [10]] ++ line_three_tokens :: [line_error2]))
               (py "app.log")
     = Raise (ValueError (py "Invalid log format: " ++ line_three_tokens))
  /\ forall logs,
       load_logs (on_disk ([line_info; [10]] ++ line_three_tokens :: [line_error2]))
                 (py "app.log") <> Ok logs.
Proof.
  assert (Forall acceptable [line_info; [10]]) as H1.
  { repeat (apply Forall_cons;
            [first [left; vm_compute; reflexivity | right; vm_compute; lia]|]);
      apply Forall_nil. }
  assert (malformed line_three_tokens) as H2.
  { split; [vm_compute; reflexivity | vm_compute; lia]. }
  destruct (load_logs_aborts_on_first_malformed
              (on_disk ([line_info; [10]] ++ line_three_tokens :: [line_error2]))
              (py "app.log") _ eq_refl) as [Hfirst Hany].
  split; [now split|]. split.
  - exact (Hfirst [line_info; [10]] line_three_tokens [line_error2]
             eq_refl H1 H2).
  - apply Hany. apply Exists_app. right. now left.
Defined.

(** C8: in a file whose lines are all blank or well-formed, [load_logs]
    raises nothing and returns, in the order of the file, the entries of
    the lines that are not blank, one entry per such line; blank lines add
    nothing.  A file of blank lines only gives the empty list. *)
Theorem load_logs_skips_blank_lines
    (fs : filesystem) (file_path : str) (file : list str) :
  fs file_path = inr file ->
  Forall acceptable file ->
  (exists logs,
     load_logs fs file_path = Ok logs
     /\ Forall2 (fun line entry => parse_log_line line = Ok entry)
                (filter (fun line => negb (is_blank line)) file) logs)
  /\ (Forall (fun line => is_blank line = true) file ->
        load_logs fs file_path = Ok []).
Proof.
  intros Hfs Hfile.
  rewrite (load_logs_lines _ _ _ Hfs).
  destruct (list_comp_ok parse_log_line (fun line => truthy (strip line))
              file []) as (logs & Hlogs & HF).
  { eapply Forall_impl; [|exact Hfile]. intros line Hl Ht.
    now apply acceptable_parses. }
  rewrite filter_not_blank in HF. simpl in Hlogs. split.
  - now exists logs.
  - intros Hblank. rewrite Hlogs. f_equal.
    assert (filter (fun line => negb (is_blank line)) file = []) as E.
    { clear - Hblank. induction Hblank as [|l ls Hl _ IH]; [reflexivity|].
      simpl. now rewrite Hl. }
    rewrite E in HF. now inversion HF.
Qed.

Lemma load_logs_skips_blank_lines_witness :
  (Forall acceptable [[10]; line_info; py "   " ++ [10]; line_error1]
   /\ exists logs,
        load_logs (on_disk [[10]; line_info; py "   " ++ [10]; line_error1])
                  (py "app.log") = Ok logs
        /\ Forall2 (fun line entry => parse_log_line line = Ok entry)
             (filter (fun line => negb (is_blank line))
                     [[10]; line_info; py "   " ++ [10]; line_error1]) logs)
  /\ (Forall (fun line => is_blank line = true) [[10]; py "  " ++ [10]; [9; 10]]
      /\ load_logs (on_disk [[10]; py "  " ++ [10]; [9; 10]]) (py "app.log")
         = Ok []).
Proof.
  assert (Forall acceptable [[10]; line_info; py "   " ++ [10]; line_error1])
    as H1.
  { repeat (apply Forall_cons;
            [first [left; vm_compute; reflexivity | right; vm_compute; lia]|]);
      apply Forall_nil. }
  assert (Forall (fun line => is_blank line = true)
            [[10]; py "  " ++ [10]; [9; 10]]) as H2.
  { repeat (apply Forall_cons; [vm_compute; reflexivity|]); apply Forall_nil. }
  split; (split; [assumption|]).
  - exact (proj1 (load_logs_skips_blank_lines
                    (on_disk [[10]; line_info; py "   " ++ [10]; line_error1])
                    (py "app.log") _ eq_refl H1)).
  - refine (proj2 (load_logs_skips_blank_lines
                    (on_disk [[10]; py "  " ++ [10]; [9; 10]])
                    (py "app.log") _ eq_refl _) H2).
    eapply Forall_impl; [|exact H2]. intros line Hl. now left.
Defined.

(* ===================================================================== *)
(** ** Counting and filtering                                             *)
(* ===================================================================== *)

(** *** Facts about [dict] and [Counter] *)

Lemma get_set (d : dict) (k k' : str) (v : Z) :
  get (set d k v) k' = if str_eq_dec k' k then Some v else get d k'.
Proof.
  induction d as [|[k0 v0] d IH]; simpl.
  - reflexivity.
  - destruct (str_eq_dec k k0) as [->|Hk]; simpl.
    + destruct (str_eq_dec k' k0); reflexivity.
    + rewrite IH. destruct (str_eq_dec k' k0) as [->|]; [|reflexivity].
      destruct (str_eq_dec k0 k); congruence.
Qed.

Lemma keys_set_in (d : dict) (k k' : str) (v : Z) :
  In k' (keys (set d k v)) <-> k' = k \/ In k' (keys d).
Proof.
  unfold keys. induction d as [|[k0 v0] d IH]; simpl.
  - intuition congruence.
  - destruct (str_eq_dec k k0) as [->|Hk]; simpl; [|rewrite IH];
      intuition congruence.
Qed.

Lemma keys_set_nodup (d : dict) (k : str) (v : Z) :
  NoDup (keys d) -> NoDup (keys (set d k v)).
Proof.
  induction d as [|[k0 v0] d IH]; simpl; intros H.
  - repeat constructor. intros [].
  - inversion H as [|? ? Hin Hnd]; subst.
    destruct (str_eq_dec k k0) as [->|Hk]; simpl; [now constructor|].
    constructor; [|now apply IH].
    intros Hin'. apply keys_set_in in Hin'. intuition congruence.
Qed.

Lemma get_none_iff (d : dict) (k : str) : get d k = None <-> ~ In k (keys d).
Proof.
  induction d as [|[k0 v0] d IH]; simpl; [tauto|].
  destruct (str_eq_dec k k0) as [->|Hk]; [|rewrite IH];
    intuition congruence.
Qed.

Lemma total_set (d : dict) (k : str) (v : Z) :
  total (set d k v) = (total d - get_default d k 0 + v)%Z.
Proof.
  unfold total, get_default. induction d as [|[k0 v0] d IH]; simpl; [lia|].
  destruct (str_eq_dec k k0) as [->|Hk]; simpl; [lia|]. rewrite IH. lia.
Qed.

Lemma Counter_snoc (l : list str) (x : str) :
  Counter (l ++ [x])
  = set (Counter l) x (get_default (Counter l) x 0 + 1)%Z.
Proof. unfold Counter. now rewrite fold_left_app. Qed.

Lemma Counter_keys_in (l : list str) (k : str) :
  In k (keys (Counter l)) <-> In k l.
Proof.
  induction l as [|x l IH] using rev_ind; [simpl; tauto|].
  rewrite Counter_snoc, keys_set_in, in_app_iff, IH. simpl. intuition.
Qed.

Lemma Counter_keys_nodup (l : list str) : NoDup (keys (Counter l)).
Proof.
  induction l as [|x l IH] using rev_ind; [constructor|].
  rewrite Counter_snoc. now apply keys_set_nodup.
Qed.

Lemma Counter_get_default (l : list str) (k : str) :
  get_default (Counter l) k 0 = Z.of_nat (count_occ str_eq_dec l k).
Proof.
  induction l as [|x l IH] using rev_ind; [reflexivity|].
  rewrite Counter_snoc, count_occ_app. unfold get_default at 1.
  rewrite get_set. simpl.
  destruct (str_eq_dec k x) as [->|Hk].
  - rewrite IH. destruct (str_eq_dec x x); [lia | congruence].
  - fold (get_default (Counter l) k 0). rewrite IH.
    destruct (str_eq_dec x k); [congruence | lia].
Qed.

Lemma Counter_get (l : list str) (k : str) :
  In k l -> get (Counter l) k = Some (Z.of_nat (count_occ str_eq_dec l k)).
Proof.
  intros Hin. pose proof (Counter_get_default l k) as H.
  unfold get_default in H. destruct (get (Counter l) k) eqn:E; [congruence|].
  apply get_none_iff in E. now rewrite Counter_keys_in in E.
Qed.

Lemma Counter_total (l : list str) : total (Counter l) = Z.of_nat (length l).
Proof.
  induction l as [|x l IH] using rev_ind; [reflexivity|].
  rewrite Counter_snoc, total_set, IH, length_app. simpl. lia.
Qed.

Lemma count_level_occ (logs : LogList) (L : str) :
  count_level logs L = count_occ str_eq_dec (map level logs) L.
Proof.
  unfold count_level, str_eqb. induction logs as [|e logs IH]; simpl;
    [reflexivity|].
  destruct (str_eq_dec (level e) L); simpl; now rewrite IH.
Qed.

Lemma count_level_two (logs : LogList) (A B : str) :
  A <> B ->
  (forall e, In e logs -> level e = A \/ level e = B) ->
  (count_level logs A + count_level logs B = length logs)%nat.
Proof.
  intros HAB. unfold count_level, str_eqb.
  induction logs as [|e logs IH]; intros H; [reflexivity|]. simpl.
  specialize (IH (fun e' He' => H e' (or_intror He'))).
  destruct (H e (or_introl eq_refl)) as [E|E]; rewrite E;
    destruct (str_eq_dec A A), (str_eq_dec B B), (str_eq_dec A B),
      (str_eq_dec B A); simpl; try congruence; lia.
Qed.

(** C4: the keys of [count_logs_by_level logs] are the levels that occur in
    [logs], each once and no other; the value at a key is the number of
    entries with that level; the values add up to the number of entries.
    With two levels [A] and [B] there are two keys, and their counts add up
    to the number of entries.  No entries give the empty mapping. *)
Theorem count_logs_by_level_exact (logs : LogList) :
  NoDup (keys (count_logs_by_level logs))
  /\ (forall L, In L (keys (count_logs_by_level logs))
                <-> exists e, In e logs /\ level e = L)
  /\ (forall L, In L (keys (count_logs_by_level logs)) ->
        get (count_logs_by_level logs) L = Some (Z.of_nat (count_level logs L))
        /\ (0 < count_level logs L)%nat)
  /\ (forall L, ~ In L (keys (count_logs_by_level logs)) ->
        get (count_logs_by_level logs) L = None /\ count_level logs L = 0%nat)
  /\ total (count_logs_by_level logs) = Z.of_nat (length logs)
  /\ (forall A B, A <> B ->
        (exists e, In e logs /\ level e = A) ->
        (exists e, In e logs /\ level e = B) ->
        (forall e, In e logs -> level e = A \/ level e = B) ->
        length (keys (count_logs_by_level logs)) = 2%nat
        /\ get (count_logs_by_level logs) A = Some (Z.of_nat (count_level logs A))
        /\ get (count_logs_by_level logs) B = Some (Z.of_nat (count_level logs B))
        /\ (count_level logs A + count_level logs B = length logs)%nat)
  /\ count_logs_by_level [] = [].
Proof.
  unfold count_logs_by_level.
  assert (forall L, In L (map level logs) <-> exists e, In e logs /\ level e = L)
    as Hmap.
  { intros L. rewrite in_map_iff. split; intros (e & H1 & H2); exists e; tauto. }
  assert (forall L, In L (keys (Counter (map level logs))) ->
            get (Counter (map level logs)) L
            = Some (Z.of_nat (count_level logs L))) as Hget.
  { intros L HL. rewrite count_level_occ. apply Counter_get.
    now apply Counter_keys_in. }
  repeat split.
  - apply Counter_keys_nodup.
  - intros HL. apply Hmap. now apply Counter_keys_in.
  - intros HL. apply Counter_keys_in. now apply Hmap.
  - now apply Hget.
  - rewrite count_level_occ. apply count_occ_In.
    now apply Counter_keys_in.
  - now apply get_none_iff.
  - rewrite count_level_occ. apply count_occ_not_In.
    now rewrite <- Counter_keys_in.
  - rewrite Counter_total. now rewrite length_map.
  - assert (Permutation (keys (Counter (map level logs))) [A; B]) as HP.
    { apply NoDup_Permutation.
      - apply Counter_keys_nodup.
      - repeat constructor; simpl; intuition congruence.
      - intros L. rewrite Counter_keys_in, Hmap. simpl. split.
        + intros (e & He & <-). destruct (H2 e He); auto.
        + intros [<- | [<- | []]]; assumption. }
    now rewrite (Permutation_length HP).
  - apply Hget. apply Counter_keys_in. now apply Hmap.
  - apply Hget. apply Counter_keys_in. now apply Hmap.
  - now apply count_level_two.
Qed.

Lemma count_logs_by_level_exact_witness :
  length (keys (count_logs_by_level sample_logs)) = 2%nat
  /\ get (count_logs_by_level sample_logs) (py "ERROR")
     = Some (Z.of_nat (count_level sample_logs (py "ERROR")))
  /\ get (count_logs_by_level sample_logs) (py "INFO")
     = Some (Z.of_nat (count_level sample_logs (py "INFO")))
  /\ (count_level sample_logs (py "ERROR") + count_level sample_logs (py "INFO")
      = length sample_logs)%nat.
Proof.
  destruct (count_logs_by_level_exact sample_logs)
    as (_ & _ & _ & _ & _ & Htwo & _).
  apply (Htwo (py "ERROR") (py "INFO")).
  - vm_compute. discriminate.
  - eexists. split; [right; left; reflexivity | reflexivity].
  - eexists. split; [left; reflexivity | reflexivity].
  - intros e [<- | [<- | [<- | []]]]; vm_compute; auto.
Defined.

Section Levels.

Context `{CaseTable}.

Lemma same_up_to_case_upper (a b : str) :
  same_up_to_case a b -> upper a = upper b.
Proof.
  unfold upper. induction 1 as [|x y a b Hxy _ IH]; simpl; [reflexivity|].
  now rewrite Hxy, IH.
Qed.

Lemma upper_ascii (s : str) :
  Forall (fun c => c < 128) s -> upper s = map ascii_upper s.
Proof.
  unfold upper. induction 1 as [|c s Hc _ IH]; simpl; [reflexivity|].
  now rewrite (to_upper_ascii c Hc), IH.
Qed.

(** On ASCII requests the relation is the familiar one: position by
    position the same character, or the two cases of one letter. *)
Lemma same_up_to_case_ascii (a b : str) :
  Forall (fun c => c < 128) a -> Forall (fun c => c < 128) b ->
  (same_up_to_case a b
   <-> Forall2 (fun x y => ascii_upper x = ascii_upper y) a b).
Proof.
  intros Ha Hb. unfold same_up_to_case. split; intros HF.
  - induction HF as [|x y a b Hxy _ IH]; constructor.
    + inversion Ha; inversion Hb; subst.
      rewrite !to_upper_ascii in Hxy by assumption. congruence.
    + inversion Ha; inversion Hb; subst. now apply IH.
  - induction HF as [|x y a b Hxy _ IH]; constructor.
    + inversion Ha; inversion Hb; subst.
      rewrite !to_upper_ascii by assumption. congruence.
    + inversion Ha; inversion Hb; subst. now apply IH.
Qed.

(** C5: two requested levels that differ only in letter case select the
    same entries, in the same order: the request is upper-cased, and an
    entry is selected when its level, as stored, equals the upper-cased
    request. *)
Theorem filter_logs_by_level_case_insensitive (logs : LogList) (q1 q2 : str) :
  same_up_to_case q1 q2 ->
  filter_logs_by_level logs q1 = filter_logs_by_level logs q2
  /\ forall e, In e (filter_logs_by_level logs q1)
               <-> In e logs /\ level e = upper q1.
Proof.
  intros Hq. unfold filter_logs_by_level. split.
  - now rewrite (same_up_to_case_upper q1 q2 Hq).
  - intros e. rewrite filter_In. unfold str_eqb.
    destruct (str_eq_dec (level e) (upper q1)); intuition congruence.
Qed.

(** C10: for a level [L] that is its own upper-casing, the count that
    [count_logs_by_level] holds for [L] (0 when [L] is not a key) is the
    number of entries that [filter_logs_by_level] returns for [L]. *)
Theorem count_agrees_with_filter (logs : LogList) (L : str) :
  upper L = L ->
  get_default (count_logs_by_level logs) L 0
  = Z.of_nat (length (filter_logs_by_level logs L)).
Proof.
  intros HL. unfold count_logs_by_level, filter_logs_by_level.
  rewrite HL, Counter_get_default, <- count_level_occ. reflexivity.
Qed.

(** The requests ["error"] and ["ERROR"] select the same entries, whatever
    the case table does outside ASCII. *)
Example filter_error_ERROR (logs : LogList) :
  filter_logs_by_level logs (py "error") = filter_logs_by_level logs (py "ERROR").
Proof.
  unfold filter_logs_by_level.
  rewrite !upper_ascii by (vm_compute; repeat constructor).
  reflexivity.
Qed.

End Levels.

Lemma filter_logs_by_level_case_insensitive_witness :
  @same_up_to_case ascii_table (py "error") (py "ERROR")
  /\ @filter_logs_by_level ascii_table sample_logs (py "error")
     = @filter_logs_by_level ascii_table sample_logs (py "ERROR").
Proof.
  assert (@same_up_to_case ascii_table (py "error") (py "ERROR")) as Hq.
  { vm_compute. repeat constructor. }
  split; [exact Hq|].
  exact (proj1 (@filter_logs_by_level_case_insensitive ascii_table sample_logs
                  (py "error") (py "ERROR") Hq)).
Defined.

Lemma count_agrees_with_filter_witness :
  @upper ascii_table (py "ERROR") = py "ERROR"
  /\ get_default (count_logs_by_level sample_logs) (py "ERROR") 0
     = Z.of_nat (length (@filter_logs_by_level ascii_table sample_logs (py "ERROR"))).
Proof.
  assert (@upper ascii_table (py "ERROR") = py "ERROR") as HL
    by (vm_compute; reflexivity).
  split; [exact HL|].
  exact (@count_agrees_with_filter ascii_table sample_logs (py "ERROR") HL).
Defined.

(* ===================================================================== *)
(** ** The count table                                                    *)
(* ===================================================================== *)

(** *** The order on strings *)

Lemma str_ltb_irrefl (a : str) : str_ltb a a = false.
Proof.
  induction a as [|x a IH]; simpl; [reflexivity|].
  now rewrite N.ltb_irrefl.
Qed.

Lemma str_ltb_trans (a b c : str) :
  str_ltb a b = true -> str_ltb b c = true -> str_ltb a c = true.
Proof.
  revert b c. induction a as [|x a IH]; intros [|y b] [|z c]; simpl;
    try congruence.
  destruct (N.ltb_spec x y), (N.ltb_spec y x), (N.ltb_spec y z),
    (N.ltb_spec z y), (N.ltb_spec x z), (N.ltb_spec z x);
    try congruence; try lia.
  apply IH.
Qed.

Lemma str_ltb_total (a b : str) :
  str_ltb a b = false -> str_ltb b a = false -> a = b.
Proof.
  revert b. induction a as [|x a IH]; intros [|y b]; simpl; try congruence.
  destruct (N.ltb_spec x y), (N.ltb_spec y x); try congruence; try lia.
  intros H1 H2. f_equal; [lia | now apply IH].
Qed.

Lemma str_lt_le (a b : str) : str_lt a b -> str_le a b.
Proof.
  unfold str_lt, str_le. intros H.
  destruct (str_ltb b a) eqn:E; [|reflexivity].
  pose proof (str_ltb_trans _ _ _ H E) as H'.
  rewrite str_ltb_irrefl in H'. discriminate.
Qed.

Lemma str_le_trans (a b c : str) : str_le a b -> str_le b c -> str_le a c.
Proof.
  unfold str_le. intros Hab Hbc.
  destruct (str_ltb c a) eqn:Hca; [|reflexivity].
  destruct (str_ltb a b) eqn:E.
  - rewrite (str_ltb_trans _ _ _ Hca E) in Hbc. discriminate.
  - rewrite <- (str_ltb_total _ _ E Hab) in Hbc. congruence.
Qed.

Lemma str_le_antisym (a b : str) : str_le a b -> str_le b a -> a = b.
Proof. unfold str_le. intros H1 H2. now apply str_ltb_total. Qed.

(** *** [sorted] *)

Lemma insert_sorted_perm (x : str) (l : list str) :
  Permutation (insert_sorted x l) (x :: l).
Proof.
  induction l as [|y l IH]; simpl; [reflexivity|].
  destruct (str_ltb y x); [|reflexivity].
  rewrite IH. apply perm_swap.
Qed.

Lemma sorted_perm (l : list str) : Permutation (sorted l) l.
Proof.
  induction l as [|x l IH]; simpl; [reflexivity|].
  rewrite insert_sorted_perm. now constructor.
Qed.

Lemma insert_sorted_ascending (x : str) (l : list str) :
  StronglySorted str_le l -> StronglySorted str_le (insert_sorted x l).
Proof.
  induction 1 as [|y l Hl IH Hy]; simpl; [repeat constructor|].
  destruct (str_ltb y x) eqn:E.
  - constructor; [assumption|].
    apply (Permutation_Forall (Permutation_sym (insert_sorted_perm x l))).
    constructor; [now apply str_lt_le | assumption].
  - constructor; [now constructor|].
    constructor; [exact E|].
    eapply Forall_impl; [|exact Hy]. intros z Hz.
    now apply (str_le_trans x y z).
Qed.

Lemma sorted_ascending (l : list str) : StronglySorted str_le (sorted l).
Proof.
  induction l as [|x l IH]; simpl; [constructor|].
  now apply insert_sorted_ascending.
Qed.

Lemma ascending_unique (l1 l2 : list str) :
  StronglySorted str_le l1 -> StronglySorted str_le l2 ->
  Permutation l1 l2 -> l1 = l2.
Proof.
  intros H1. revert l2. induction H1 as [|a l1 Hl1 IH Ha]; intros l2 H2 HP.
  - now apply Permutation_nil in HP.
  - destruct H2 as [|b l2 Hl2 Hb].
    + now apply Permutation_sym, Permutation_nil in HP.
    + assert (a = b) as ->.
      { assert (In a (b :: l2)) as Ia
          by (apply (Permutation_in _ HP); now left).
        assert (In b (a :: l1)) as Ib
          by (apply (Permutation_in _ (Permutation_sym HP)); now left).
        destruct Ia as [->|Ia]; [reflexivity|].
        destruct Ib as [->|Ib]; [reflexivity|].
        rewrite Forall_forall in Ha, Hb.
        apply str_le_antisym; auto. }
      f_equal. apply IH; [assumption|].
      now apply Permutation_cons_inv in HP.
Qed.

(** The result of [sorted] does not depend on the order of its input. *)
Lemma sorted_perm_eq (l1 l2 : list str) :
  Permutation l1 l2 -> sorted l1 = sorted l2.
Proof.
  intros HP. apply ascending_unique; try apply sorted_ascending.
  rewrite !sorted_perm. exact HP.
Qed.

Lemma ascending_strict (l : list str) :
  StronglySorted str_le l -> NoDup l -> StronglySorted str_lt l.
Proof.
  induction 1 as [|a l Hl IH Ha]; intros Hnd; [constructor|].
  inversion Hnd as [|? ? Hin Hnd']; subst.
  constructor; [now apply IH|].
  rewrite Forall_forall in *. intros z Hz. unfold str_lt.
  destruct (str_ltb a z) eqn:E; [reflexivity|].
  exfalso. apply Hin. rewrite (str_ltb_total a z E (Ha z Hz)). exact Hz.
Qed.

(** *** Lookup does not depend on the insertion order *)

Lemma get_perm (d d' : dict) (k : str) :
  Permutation d d' -> NoDup (keys d) -> get d k = get d' k.
Proof.
  induction 1 as [| [k0 v0] d d' HP IH | [k1 v1] [k2 v2] d | d d' d'' HP1 IH1 HP2 IH2];
    intros Hnd; simpl.
  - reflexivity.
  - inversion Hnd; subst. destruct (str_eq_dec k k0); [reflexivity|].
    now apply IH.
  - inversion Hnd as [|? ? Hin _]; subst. simpl in Hin.
    destruct (str_eq_dec k k1), (str_eq_dec k k2); try reflexivity.
    exfalso. apply Hin. left. congruence.
  - rewrite IH1 by assumption. apply IH2.
    apply (Permutation_NoDup (l := keys d)); [|assumption].
    now apply Permutation_map.
Qed.

(** *** [max] with a default *)

Lemma fold_left_max (l : list nat) (x : nat) :
  (x <= fold_left Nat.max l x)%nat
  /\ Forall (fun y => (y <= fold_left Nat.max l x)%nat) l
  /\ (fold_left Nat.max l x = x \/ In (fold_left Nat.max l x) l).
Proof.
  revert x. induction l as [|y l IH]; intros x; simpl.
  - repeat split; [lia | constructor | now left].
  - destruct (IH (Nat.max x y)) as (H1 & H2 & H3). repeat split.
    + lia.
    + constructor; [lia | assumption].
    + destruct H3 as [H3 | H3]; [|now right; right].
      rewrite H3. destruct (Nat.max_spec x y) as [[_ ->] | [_ ->]]; auto.
Qed.

Lemma max_default_spec (l : list nat) :
  Forall (fun y => (y <= max_default l 0)%nat) l
  /\ (l = [] /\ max_default l 0 = 0%nat \/ In (max_default l 0) l).
Proof.
  destruct l as [|x l]; simpl.
  - split; [constructor | now left].
  - destruct (fold_left_max l x) as (H1 & H2 & H3). split.
    + now constructor.
    + right. destruct H3 as [-> | H3]; auto.
Qed.

(** *** Printing *)

Lemma for_each_prints {A} (text : A -> str) (body : A -> IO unit)
    (xs : list A) (out : str) :
  (forall x o, In x xs -> body x o = (Ok tt, o ++ text x)) ->
  for_each xs body out = (Ok tt, out ++ flat_map text xs).
Proof.
  revert out. induction xs as [|x xs IH]; intros out Hb; simpl.
  - unfold ret. now rewrite app_nil_r.
  - unfold bind. rewrite Hb by now left.
    rewrite IH by (intros; apply Hb; now right).
    now rewrite <- app_assoc.
Qed.

Lemma print_table_rows_text (counts : dict) (level_width : nat) (out : str) :
  print_table_rows counts level_width out
  = (Ok tt, out ++ flat_map (table_row counts level_width)
                            (sorted (keys counts))).
Proof.
  unfold print_table_rows. apply for_each_prints.
  intros lvl o Hin.
  apply (Permutation_in _ (sorted_perm (keys counts))) in Hin.
  unfold bind, lift, getitem, print, table_row, get_default.
  destruct (get counts lvl) as [v|] eqn:E.
  - now rewrite <- !app_assoc.
  - apply get_none_iff in E. contradiction.
Qed.

Lemma calculate_level_width_spec (counts : dict) (header : str) :
  (length header <= calculate_level_width counts header)%nat
  /\ (forall k, In k (keys counts) ->
        (length k <= calculate_level_width counts header)%nat)
  /\ (calculate_level_width counts header = length header
      \/ exists k, In k (keys counts)
                   /\ calculate_level_width counts header = length k)
  /\ (keys counts = [] -> calculate_level_width counts header = length header).
Proof.
  unfold calculate_level_width.
  destruct (max_default_spec (map (@length N) (keys counts))) as (Hall & Hmax).
  rewrite Forall_forall in Hall. repeat split.
  - lia.
  - intros k Hk. specialize (Hall (length k) (in_map _ _ _ Hk)). lia.
  - destruct (Nat.max_spec (length header)
                (max_default (map (@length N) (keys counts)) 0))
      as [[Hlt E] | [_ E]]; rewrite E; [|now left].
    destruct Hmax as [[_ E0] | Hin]; [lia|].
    apply in_map_iff in Hin as (k & Hk & Hin). right. now exists k.
  - intros ->. simpl. lia.
Qed.

Lemma print_table_header_text (level_header count_header : str)
    (level_width : nat) (out : str) :
  print_table_header level_header count_header level_width out
  = (Ok tt, out ++ header_row level_header count_header level_width ++ [10]
                ++ separator_row count_header level_width ++ [10]).
Proof.
  unfold print_table_header, bind, print, header_row, separator_row, ljust.
  f_equal. now rewrite <- !app_assoc.
Qed.

Lemma table_row_perm (counts counts' : dict) (level_width : nat) (lvl : str) :
  NoDup (keys counts) -> Permutation counts counts' ->
  table_row counts' level_width lvl = table_row counts level_width lvl.
Proof.
  intros Hnd HP. unfold table_row, get_default.
  now rewrite (get_perm counts counts' lvl HP Hnd).
Qed.

Lemma calculate_level_width_perm (counts counts' : dict) (header : str) :
  Permutation counts counts' ->
  calculate_level_width counts' header = calculate_level_width counts header.
Proof.
  intros HP.
  assert (forall k, In k (keys counts) <-> In k (keys counts')) as Hk.
  { intros k. unfold keys. split; apply Permutation_in;
      [|apply Permutation_sym]; now apply Permutation_map. }
  destruct (calculate_level_width_spec counts header) as (H1 & H2 & H3 & _).
  destruct (calculate_level_width_spec counts' header) as (H1' & H2' & H3' & _).
  apply Nat.le_antisymm.
  - destruct H3' as [-> | (k & Hin & ->)]; [exact H1|].
    apply H2. now apply Hk.
  - destruct H3 as [-> | (k & Hin & ->)]; [exact H1'|].
    apply H2'. now apply Hk.
Qed.

(** The header and then the rows, as [display_log_counts] runs them. *)
Lemma print_table_text (counts : dict) (level_header count_header : str)
    (level_width : nat) (out : str) :
  bind (print_table_header level_header count_header level_width)
       (fun _ => print_table_rows counts level_width) out
  = (Ok tt,
     out ++ header_row level_header count_header level_width ++ [10]
         ++ separator_row count_header level_width ++ [10]
         ++ flat_map (table_row counts level_width) (sorted (keys counts))).
Proof.
  unfold bind at 1.
  rewrite print_table_header_text, print_table_rows_text.
  now rewrite <- !app_assoc.
Qed.

Lemma display_log_counts_text (counts : dict) (out : str) :
  display_log_counts counts out
  = (Ok tt,
     out ++ header_row header_level header_count
              (calculate_level_width counts header_level) ++ [10]
         ++ separator_row header_count
              (calculate_level_width counts header_level) ++ [10]
         ++ flat_map (table_row counts
                        (calculate_level_width counts header_level))
                     (sorted (keys counts))).
Proof.
  unfold display_log_counts. unfold bind at 1.
  rewrite print_table_header_text, print_table_rows_text.
  now rewrite <- !app_assoc.
Qed.

(** C6: the width of the level column is the larger of the length of the
    level header and the length of the longest label (the length of the
    header when there is no label).  The header is printed as two lines: the
    level header padded with spaces to that width, [" | "], the count
    header; then a rule of dashes with a bar under the bar of the first
    line, as long as the first line.  The rows follow, one per label, in
    ascending order of the labels whatever the insertion order of the
    mapping: the label padded to the width, [" | "], the count.
    [display_log_counts] prints exactly this, in this order and with the
    rows at the computed width, for its two header labels; so does the
    same sequence of calls for any two header labels. *)
Theorem count_table_rendering
    (counts : dict) (level_header count_header out : str) :
  ((length level_header <= calculate_level_width counts level_header)%nat
   /\ (forall k, In k (keys counts) ->
         (length k <= calculate_level_width counts level_header)%nat)
   /\ (calculate_level_width counts level_header = length level_header
       \/ exists k, In k (keys counts)
            /\ calculate_level_width counts level_header = length k)
   /\ (keys counts = [] ->
         calculate_level_width counts level_header = length level_header))
  /\ (print_table_header level_header count_header
        (calculate_level_width counts level_header) out
      = (Ok tt,
         out ++ header_row level_header count_header
                  (calculate_level_width counts level_header) ++ [10]
             ++ separator_row count_header
                  (calculate_level_width counts level_header) ++ [10])
      /\ length (header_row level_header count_header
                   (calculate_level_width counts level_header))
         = (calculate_level_width counts level_header + 3
            + length count_header)%nat
      /\ length (separator_row count_header
                   (calculate_level_width counts level_header))
         = (calculate_level_width counts level_header + 3
            + length count_header)%nat)
  /\ (forall w o,
        print_table_rows counts w o
        = (Ok tt, o ++ flat_map (table_row counts w) (sorted (keys counts))))
  /\ bind (print_table_header level_header count_header
             (calculate_level_width counts level_header))
          (fun _ => print_table_rows counts
                      (calculate_level_width counts level_header)) out
     = (Ok tt,
        out ++ header_row level_header count_header
                 (calculate_level_width counts level_header) ++ [10]
            ++ separator_row count_header
                 (calculate_level_width counts level_header) ++ [10]
            ++ flat_map (table_row counts
                           (calculate_level_width counts level_header))
                        (sorted (keys counts)))
  /\ display_log_counts counts out
     = (Ok tt,
        out ++ header_row header_level header_count
                 (calculate_level_width counts header_level) ++ [10]
            ++ separator_row header_count
                 (calculate_level_width counts header_level) ++ [10]
            ++ flat_map (table_row counts
                           (calculate_level_width counts header_level))
                        (sorted (keys counts)))
  /\ Permutation (sorted (keys counts)) (keys counts)
  /\ StronglySorted str_le (sorted (keys counts))
  /\ (NoDup (keys counts) -> StronglySorted str_lt (sorted (keys counts)))
  /\ (forall counts' w o,
        NoDup (keys counts) -> Permutation counts counts' ->
        print_table_rows counts' w o = print_table_rows counts w o)
  /\ (forall counts',
        NoDup (keys counts) -> Permutation counts counts' ->
        display_log_counts counts' out = display_log_counts counts out).
Proof.
  pose proof (calculate_level_width_spec counts level_header) as Hw.
  split; [exact Hw|]. destruct Hw as (Hw & _).
  split; [split; [apply print_table_header_text|]|].
  - unfold header_row, separator_row, repeat_char.
    rewrite !length_app, !repeat_length. simpl. lia.
  - split; [intros; apply print_table_rows_text|].
    split; [apply print_table_text|].
    split; [apply display_log_counts_text|].
    split; [apply sorted_perm|].
    split; [apply sorted_ascending|].
    assert (forall counts', Permutation counts counts' ->
              sorted (keys counts') = sorted (keys counts)) as Hsorted.
    { intros counts' HP. apply sorted_perm_eq.
      apply Permutation_map. now apply Permutation_sym. }
    split; [|split].
    + intros Hnd. apply ascending_strict; [apply sorted_ascending|].
      apply (Permutation_NoDup (Permutation_sym (sorted_perm _)) Hnd).
    + intros counts' w o Hnd HP. rewrite !print_table_rows_text.
      rewrite (Hsorted counts' HP).
      apply f_equal. apply f_equal. apply flat_map_ext. intros lvl.
      now apply table_row_perm.
    + intros counts' Hnd HP. rewrite !display_log_counts_text.
      rewrite (calculate_level_width_perm counts counts' header_level HP).
      rewrite (Hsorted counts' HP).
      rewrite (flat_map_ext
                 (table_row counts' (calculate_level_width counts header_level))
                 (table_row counts (calculate_level_width counts header_level)));
        [reflexivity|].
      intros lvl. now apply table_row_perm.
Qed.

Lemma count_table_rendering_witness :
  (NoDup (keys [(py "INFO", 1%Z); (py "ERROR", 2%Z)])
   /\ Permutation [(py "INFO", 1%Z); (py "ERROR", 2%Z)]
                  [(py "ERROR", 2%Z); (py "INFO", 1%Z)])
  /\ StronglySorted str_lt (sorted (keys [(py "INFO", 1%Z); (py "ERROR", 2%Z)]))
  /\ print_table_rows [(py "ERROR", 2%Z); (py "INFO", 1%Z)] 16 []
     = print_table_rows [(py "INFO", 1%Z); (py "ERROR", 2%Z)] 16 []
  /\ display_log_counts [(py "ERROR", 2%Z); (py "INFO", 1%Z)] []
     = display_log_counts [(py "INFO", 1%Z); (py "ERROR", 2%Z)] [].
Proof.
  assert (NoDup (keys [(py "INFO", 1%Z); (py "ERROR", 2%Z)])) as Hnd.
  { vm_compute. repeat constructor; simpl; intuition discriminate. }
  assert (Permutation [(py "INFO", 1%Z); (py "ERROR", 2%Z)]
                      [(py "ERROR", 2%Z); (py "INFO", 1%Z)]) as HP
    by apply perm_swap.
  destruct (count_table_rendering [(py "INFO", 1%Z); (py "ERROR", 2%Z)]
              header_level header_count [])
    as (_ & _ & _ & _ & _ & _ & _ & Hstrict & Horder & Hwhole).
  split; [now split|]. split; [|split].
  - exact (Hstrict Hnd).
  - exact (Horder _ 16%nat [] Hnd HP).
  - exact (Hwhole _ Hnd HP).
Defined.

(** Scenario 1 of the specification: the count table of the sample file. *)
Example scenario_1_count_table :
  match load_logs (on_disk sample_file) (py "app.log") with
  | Ok logs => snd (display_log_counts (count_logs_by_level logs) [])
  | Raise _ => []
  end
  = py "Рівень логування | Кількість" ++ [10]
    ++ py "-----------------|----------" ++ [10]
    ++ py "ERROR            | 2" ++ [10]
    ++ py "INFO             | 1" ++ [10].
Proof. vm_compute. reflexivity. Qed.

(* ===================================================================== *)
(** ** The detail listing                                                 *)
(* ===================================================================== *)

Section Details.

Context `{CaseTable}.

Lemma display_filtered_logs_empty (lvl out : str) :
  display_filtered_logs [] lvl out
  = (Ok tt, out ++ [10] ++ no_entries_notice (upper lvl) ++ [10]).
Proof.
  unfold display_filtered_logs, print, no_entries_notice.
  rewrite <- !app_assoc. reflexivity.
Qed.

Lemma display_filtered_logs_entries (logs : LogList) (lvl out : str) :
  logs <> [] ->
  display_filtered_logs logs lvl out
  = (Ok tt, out ++ [10] ++ details_header (upper lvl) ++ [10]
                ++ flat_map detail_line logs).
Proof.
  intros Hne. unfold display_filtered_logs.
  destruct logs as [|e logs]; [congruence|].
  unfold bind at 1. unfold print at 1.
  rewrite (for_each_prints detail_line).
  - unfold details_header. rewrite <- !app_assoc. reflexivity.
  - intros log o _. unfold print, detail_line.
    rewrite <- !app_assoc. reflexivity.
Qed.

(** C7, amended: for an empty list [display_filtered_logs] prints a blank
    line and the notice that names the upper-cased level, and nothing else:
    no header.  For a list that is not empty it prints a blank line, the
    header that names the upper-cased level, and then one line per entry,
    in the order of the list: date, space, time, [" - "], message, without
    the level.  In Scenario 2 (the sample file, level ["info"]) the line
    after the header is [2024-01-01 10:00:00 - Service started]. *)
Theorem display_filtered_logs_output (logs : LogList) (lvl out : str) :
  (logs = [] ->
     display_filtered_logs logs lvl out
     = (Ok tt, out ++ [10] ++ no_entries_notice (upper lvl) ++ [10]))
  /\ (logs <> [] ->
        display_filtered_logs logs lvl out
        = (Ok tt, out ++ [10] ++ details_header (upper lvl) ++ [10]
                      ++ flat_map detail_line logs))
  /\ match load_logs (on_disk sample_file) (py "app.log") with
     | Ok loaded =>
       display_filtered_logs (filter_logs_by_level loaded (py "info"))
                             (py "info") out
     | Raise e => (Raise e, out)
     end
     = (Ok tt, out ++ [10] ++ details_header (py "INFO") ++ [10]
                   ++ py "2024-01-01 10:00:00 - Service started" ++ [10]).
Proof.
  split; [|split].
  - intros ->. apply display_filtered_logs_empty.
  - apply display_filtered_logs_entries.
  - assert (upper (py "info") = py "INFO") as Hup.
    { rewrite upper_ascii; [reflexivity|].
      vm_compute. repeat constructor. }
    assert (load_logs (on_disk sample_file) (py "app.log") = Ok sample_logs)
      as -> by (vm_compute; reflexivity).
    unfold filter_logs_by_level. rewrite Hup.
    replace (filter (fun log => str_eqb (level log) (py "INFO")) sample_logs)
      with [mkLogEntry (py "2024-01-01") (py "10:00:00") (py "INFO")
                       (py "Service started")]
      by (vm_compute; reflexivity).
    rewrite display_filtered_logs_entries by discriminate.
    rewrite Hup.
    replace (flat_map detail_line
               [mkLogEntry (py "2024-01-01") (py "10:00:00") (py "INFO")
                           (py "Service started")])
      with (py "2024-01-01 10:00:00 - Service started" ++ [10])
      by (vm_compute; reflexivity).
    reflexivity.
Qed.

End Details.

Lemma display_filtered_logs_output_witness :
  @display_filtered_logs ascii_table [] (py "WARNING") []
  = (Ok tt, [] ++ [10] ++ no_entries_notice (@upper ascii_table (py "WARNING"))
                ++ [10])
  /\ (sample_logs <> []
      /\ @display_filtered_logs ascii_table sample_logs (py "error") []
         = (Ok tt, [] ++ [10] ++ details_header (@upper ascii_table (py "error"))
                       ++ [10] ++ flat_map detail_line sample_logs)).
Proof.
  split; [|split].
  - exact (proj1 (@display_filtered_logs_output ascii_table []
                    (py "WARNING") []) eq_refl).
  - discriminate.
  - refine (proj1 (proj2 (@display_filtered_logs_output ascii_table sample_logs
                            (py "error") [])) _).
    discriminate.
Defined.

(** C7 as stated fails on the empty list: what is printed for the level
    ["WARNING"] and no entries is the notice alone; the header line that
    names the level is not printed. *)
Lemma detail_listing_of_nothing_has_no_header :
  printed_lines (snd (@display_filtered_logs ascii_table [] (py "WARNING") []))
  = [no_entries_notice (py "WARNING")]
  /\ ~ In (details_header (py "WARNING"))
          (printed_lines
             (snd (@display_filtered_logs ascii_table [] (py "WARNING") []))).
Proof.
  split.
  - vm_compute. reflexivity.
  - vm_compute. intros [E | []]. discriminate E.
Qed.

(* ===================================================================== *)
(** ** Further properties of parsing                                      *)
(* ===================================================================== *)

Lemma lstrip_lead (lead s : str) :
  all_space lead -> lstrip (lead ++ s) = lstrip s.
Proof.
  unfold lstrip. induction 1 as [|c lead Hc _ IH]; simpl; [reflexivity|].
  unfold is_sp in Hc. now rewrite Hc.
Qed.

Lemma rstrip_all_space (trail : str) : all_space trail -> rstrip trail = [].
Proof.
  induction 1 as [|c trail Hc _ IH]; simpl; [reflexivity|].
  unfold is_sp in Hc. now rewrite IH, Hc.
Qed.

Lemma rstrip_trail (s trail : str) :
  all_space trail -> rstrip (s ++ trail) = rstrip s.
Proof.
  intros Ht. induction s as [|c s IH]; simpl.
  - now apply rstrip_all_space.
  - now rewrite IH.
Qed.

Lemma rstrip_fixed (s : str) : last_is not_sp s -> rstrip s = s.
Proof.
  intros [-> | (s' & c & -> & Hc)]; [reflexivity|].
  induction s' as [|x s' IH]; simpl.
  - unfold not_sp in Hc. now rewrite Hc.
  - rewrite IH. now destruct s'.
Qed.

Lemma lstrip_all_space (s : str) : all_space s -> lstrip s = [].
Proof.
  unfold lstrip. induction 1 as [|c s Hc _ IH]; simpl; [reflexivity|].
  unfold is_sp in Hc. now rewrite Hc.
Qed.

Lemma lstrip_app (s trail : str) :
  lstrip s <> [] -> lstrip (s ++ trail) = lstrip s ++ trail.
Proof.
  unfold lstrip. induction s as [|c s IH]; simpl; [congruence|].
  destruct (is_space c); [exact IH | reflexivity].
Qed.

(** Whitespace around a line does not change what [strip] keeps. *)
Lemma strip_surrounded (lead s trail : str) :
  all_space lead -> all_space trail ->
  strip (lead ++ s ++ trail) = strip s.
Proof.
  intros Hl Ht. unfold strip. rewrite lstrip_lead by assumption.
  destruct (lstrip s) as [|c r] eqn:E.
  - assert (all_space s) as Hs.
    { destruct (lstrip_split s) as (Hs & Ha & _). rewrite E, app_nil_r in Hs.
      now rewrite Hs. }
    rewrite lstrip_all_space; [reflexivity|].
    apply Forall_app. now split.
  - rewrite lstrip_app by congruence. rewrite E. now apply rstrip_trail.
Qed.

Lemma take_drop_word (w r : str) :
  no_space w -> head_is is_sp r ->
  take_while non_space (w ++ r) = w /\ drop_while non_space (w ++ r) = r.
Proof.
  intros Hw Hr. induction Hw as [|c w Hc _ IH]; simpl.
  - destruct r as [|d r]; [now split|]. simpl in *.
    now rewrite (proj2 (non_space_false d) Hr).
  - rewrite (proj2 (non_space_true c) Hc). destruct IH as [-> ->]. now split.
Qed.

Lemma tokens_word (w : str) : word w -> tokens w = [w].
Proof.
  intros [Hne Hw]. rewrite tokens_unfold.
  assert (lstrip w = w) as ->.
  { apply lstrip_head. destruct w as [|c w]; [exact I|]. now inversion Hw. }
  destruct w as [|c w]; [congruence|].
  destruct (take_drop_word (c :: w) [] Hw I) as [H1 H2].
  rewrite app_nil_r in H1, H2. cbv zeta. now rewrite H1, H2.
Qed.

(** Splitting again what [split_ws] returns gives the tokens of the
    string: the items but the last are single tokens, and the last item
    holds the remaining ones. *)
Lemma split_ws_flat_tokens (n : nat) (s : str) :
  flat_map tokens (split_ws n s) = tokens s.
Proof.
  revert s. induction n as [|n IH]; intros s.
  - destruct (split_ws_O s) as [[-> ->] | (lead & r & -> & Hl & Hr & Hh & -> & _)];
      [reflexivity|].
    simpl. rewrite app_nil_r, <- (tokens_lstrip (lead ++ r)).
    rewrite lstrip_lead by assumption. now rewrite lstrip_head.
  - destruct (split_ws_S n s)
      as [[-> ->] | (lead & w & rest & _ & _ & Hw & _ & -> & ->)];
      [reflexivity|].
    simpl. now rewrite IH, (tokens_word w Hw).
Qed.

Lemma split_ws_S_word (n : nat) (lead w rest : str) :
  all_space lead -> word w -> head_is is_sp rest ->
  split_ws (S n) (lead ++ w ++ rest) = w :: split_ws n rest.
Proof.
  intros Hlead [Hne Hw] Hrest. simpl.
  rewrite lstrip_lead by assumption.
  rewrite lstrip_head
    by (destruct w as [|c w]; [congruence | now inversion Hw]).
  destruct (take_drop_word w rest Hw Hrest) as [H1 H2].
  destruct (w ++ rest) as [|c x] eqn:E;
    [apply app_eq_nil in E; tauto|].
  simpl in H1, H2. now rewrite H1, H2.
Qed.

Lemma split_ws_O_rest (lead m : str) :
  all_space lead -> m <> [] -> head_is not_sp m ->
  split_ws 0 (lead ++ m) = [m].
Proof.
  intros Hlead Hm Hh. simpl. rewrite lstrip_lead by assumption.
  rewrite lstrip_head by assumption. now destruct m.
Qed.

Lemma gap_head (g r : str) : gap g -> head_is is_sp (g ++ r).
Proof.
  intros [Hne Hg]. destruct g as [|c g]; [congruence|]. now inversion Hg.
Qed.

(** A line of the right shape is cut into the fields it was built from. *)
Lemma split_ws_shape (d g1 t g2 l g3 m : str) :
  word d -> gap g1 -> word t -> gap g2 -> word l -> gap g3 ->
  m <> [] -> head_is not_sp m ->
  split_ws 3 (d ++ g1 ++ t ++ g2 ++ l ++ g3 ++ m) = [d; t; l; m].
Proof.
  intros Hd Hg1 Ht Hg2 Hl Hg3 Hm Hhm.
  pose proof (split_ws_S_word 2 [] d (g1 ++ t ++ g2 ++ l ++ g3 ++ m)
                (Forall_nil _) Hd (gap_head _ _ Hg1)) as H0.
  rewrite app_nil_l in H0. rewrite H0.
  rewrite (split_ws_S_word 1 g1 t) by (try apply Hg1; auto using gap_head).
  rewrite (split_ws_S_word 0 g2 l) by (try apply Hg2; auto using gap_head).
  rewrite (split_ws_O_rest g3 m) by (try apply Hg3; assumption).
  reflexivity.
Qed.

Lemma all_space_forallb (s : str) : forallb is_space s = true -> all_space s.
Proof. intros Hs. apply Forall_forall. now apply forallb_forall. Qed.

Lemma no_space_forallb (s : str) : forallb non_space s = true -> no_space s.
Proof.
  intros Hs. apply Forall_forall. intros c Hc. apply non_space_true.
  revert c Hc. now apply forallb_forall.
Qed.

Lemma word_forallb (s : str) :
  truthy s = true -> forallb non_space s = true -> word s.
Proof.
  intros Hne Hs. split; [now destruct s | now apply no_space_forallb].
Qed.

Lemma gap_forallb (s : str) :
  truthy s = true -> forallb is_space s = true -> gap s.
Proof.
  intros Hne Hs. split; [now destruct s | now apply all_space_forallb].
Qed.

(** X1: a line built from a date, a time and a level without whitespace
    and a message that begins and ends with a character that is not
    whitespace, with any whitespace between them and around them, is
    parsed into exactly these four fields. *)
Theorem parse_log_line_of_fields
    (lead d g1 t g2 l g3 m trail : str) :
  all_space lead -> all_space trail ->
  word d -> gap g1 -> word t -> gap g2 -> word l -> gap g3 ->
  m <> [] -> head_is not_sp m -> last_is not_sp m ->
  parse_log_line (lead ++ d ++ g1 ++ t ++ g2 ++ l ++ g3 ++ m ++ trail)
  = Ok (mkLogEntry d t l m).
Proof.
  intros Hlead Htrail Hd Hg1 Ht Hg2 Hl Hg3 Hm Hhm Hlm.
  unfold parse_log_line.
  replace (lead ++ d ++ g1 ++ t ++ g2 ++ l ++ g3 ++ m ++ trail)
    with (lead ++ (d ++ g1 ++ t ++ g2 ++ l ++ g3 ++ m) ++ trail)
    by (now rewrite <- !app_assoc).
  rewrite strip_surrounded by assumption.
  assert (strip (d ++ g1 ++ t ++ g2 ++ l ++ g3 ++ m)
          = d ++ g1 ++ t ++ g2 ++ l ++ g3 ++ m) as ->.
  { unfold strip. rewrite lstrip_head.
    - apply rstrip_fixed.
      destruct Hlm as [-> | (m' & c & -> & Hc)]; [congruence|].
      right. exists (d ++ g1 ++ t ++ g2 ++ l ++ g3 ++ m'), c.
      split; [now rewrite <- !app_assoc | assumption].
    - destruct Hd as [Hne Hd]. destruct d as [|c d]; [congruence|].
      now inversion Hd. }
  now rewrite split_ws_shape.
Qed.

Lemma parse_log_line_of_fields_witness :
  parse_log_line (py "  " ++ py "2024-01-01" ++ [9] ++ py "10:00:00" ++ py "  "
                    ++ py "info" ++ py " " ++ py "Disk  full" ++ [13; 10])
  = Ok (mkLogEntry (py "2024-01-01") (py "10:00:00") (py "info")
                   (py "Disk  full")).
Proof.
  assert (all_space (py "  ")) as H1
    by (apply all_space_forallb; vm_compute; reflexivity).
  assert (all_space [13; 10]) as H2
    by (apply all_space_forallb; vm_compute; reflexivity).
  assert (word (py "2024-01-01")) as H3
    by (apply word_forallb; vm_compute; reflexivity).
  assert (gap [9]) as H4 by (apply gap_forallb; vm_compute; reflexivity).
  assert (word (py "10:00:00")) as H5
    by (apply word_forallb; vm_compute; reflexivity).
  assert (gap (py "  ")) as H6 by (apply gap_forallb; vm_compute; reflexivity).
  assert (word (py "info")) as H7
    by (apply word_forallb; vm_compute; reflexivity).
  assert (gap (py " ")) as H8 by (apply gap_forallb; vm_compute; reflexivity).
  assert (py "Disk  full" <> []) as H9 by (vm_compute; discriminate).
  assert (head_is not_sp (py "Disk  full")) as H10
    by (vm_compute; reflexivity).
  assert (last_is not_sp (py "Disk  full")) as H11
    by (right; exists (py "Disk  ful"), 108; split; vm_compute; reflexivity).
  exact (parse_log_line_of_fields (py "  ") (py "2024-01-01") [9]
           (py "10:00:00") (py "  ") (py "info") (py " ") (py "Disk  full")
           [13; 10] H1 H2 H3 H4 H5 H6 H7 H8 H9 H10 H11).
Defined.

(** X2: whitespace added in front of a line or after it changes nothing in
    the entry that is parsed; a line that is rejected stays rejected, and
    the error carries the line as it is now. *)
Theorem parse_log_line_outer_whitespace (lead line trail : str) :
  all_space lead -> all_space trail ->
  parse_log_line (lead ++ line ++ trail)
  = match parse_log_line line with
    | Ok entry => Ok entry
    | Raise _ =>
      Raise (ValueError (py "Invalid log format: " ++ lead ++ line ++ trail))
    end.
Proof.
  intros Hlead Htrail. unfold parse_log_line.
  rewrite strip_surrounded by assumption.
  pose proof (split_ws_length 3 (strip line)) as HL.
  destruct (split_ws 3 (strip line)) as [|a [|b [|c [|d [|x parts]]]]];
    try reflexivity.
  simpl length in HL. lia.
Qed.

Lemma parse_log_line_outer_whitespace_witness :
  parse_log_line (py "   " ++ py "2024-01-01 10:00:00 INFO Service started"
                    ++ [13; 10])
  = match parse_log_line (py "2024-01-01 10:00:00 INFO Service started") with
    | Ok entry => Ok entry
    | Raise _ =>
      Raise (ValueError
               (py "Invalid log format: " ++ py "   "
                  ++ py "2024-01-01 10:00:00 INFO Service started" ++ [13; 10]))
    end.
Proof.
  apply (parse_log_line_outer_whitespace (py "   ")
           (py "2024-01-01 10:00:00 INFO Service started") [13; 10]).
  - apply all_space_forallb. vm_compute. reflexivity.
  - apply all_space_forallb. vm_compute. reflexivity.
Defined.

Lemma parse_log_line_parts (line : str) (e : LogEntry) :
  parse_log_line line = Ok e ->
  split_ws 3 (strip line) = [date e; time e; level e; message e]
  /\ log_line_shape (strip line) e.
Proof.
  intros He.
  destruct (parse_log_line_cases line) as [[_ Hr] | [_ (e' & He' & Hshape)]];
    [congruence|].
  assert (e' = e) as -> by congruence.
  split; [|exact Hshape].
  destruct Hshape as (g1 & g2 & g3 & -> & Hd & Hg1 & Ht & Hg2 & Hl & Hg3
                      & Hm & Hhm & _).
  now apply split_ws_shape.
Qed.

(** X3: the date, the time and the level of a parsed entry are the first
    three whitespace-delimited tokens of the line, and the tokens of its
    message are the tokens that follow, in the same order. *)
Theorem parse_log_line_tokens (line : str) (entry : LogEntry) :
  parse_log_line line = Ok entry ->
  tokens line
  = date entry :: time entry :: level entry :: tokens (message entry).
Proof.
  intros He. destruct (parse_log_line_parts line entry He) as [Hparts Hshape].
  rewrite <- (tokens_strip line), <- (split_ws_flat_tokens 3 (strip line)).
  rewrite Hparts.
  destruct Hshape as (g1 & g2 & g3 & _ & Hd & _ & Ht & _ & Hl & _).
  simpl. rewrite (tokens_word _ Hd), (tokens_word _ Ht), (tokens_word _ Hl).
  simpl. now rewrite app_nil_r.
Qed.

Lemma parse_log_line_tokens_witness :
  parse_log_line line_spaced
  = Ok (mkLogEntry (py "2024-01-01") (py "10:00:00") (py "INFO")
                   (py "Disk  full   again"))
  /\ tokens line_spaced
     = py "2024-01-01" :: py "10:00:00" :: py "INFO"
         :: tokens (py "Disk  full   again").
Proof.
  assert (parse_log_line line_spaced
          = Ok (mkLogEntry (py "2024-01-01") (py "10:00:00") (py "INFO")
                           (py "Disk  full   again"))) as He
    by (vm_compute; reflexivity).
  split; [exact He|].
  exact (parse_log_line_tokens line_spaced _ He).
Defined.

(* ===================================================================== *)
(** ** Further properties of loading, counting and filtering              *)
(* ===================================================================== *)

Lemma load_logs_ok_acceptable (fs : filesystem) (file_path : str)
    (file : list str) (logs : LogList) :
  fs file_path = inr file -> load_logs fs file_path = Ok logs ->
  Forall acceptable file.
Proof.
  intros Hfs Hok. apply Forall_forall. intros line Hin.
  destruct (acceptable_or_malformed line) as [Ha | Hm]; [exact Ha|].
  exfalso.
  assert (Exists malformed file) as HE by (apply Exists_exists; eauto).
  destruct (first_malformed file HE) as (pre & bad & post & -> & Hpre & Hbad).
  rewrite (load_logs_raises fs file_path pre post bad Hfs Hpre Hbad) in Hok.
  discriminate.
Qed.

Lemma load_logs_acceptable_ok (fs : filesystem) (file_path : str)
    (file : list str) :
  fs file_path = inr file -> Forall acceptable file ->
  exists logs,
    load_logs fs file_path = Ok logs
    /\ Forall2 (fun line entry => parse_log_line line = Ok entry)
               (filter (fun line => negb (is_blank line)) file) logs.
Proof.
  intros Hfs Hfile. rewrite (load_logs_lines _ _ _ Hfs).
  destruct (list_comp_ok parse_log_line (fun line => truthy (strip line))
              file []) as (logs & Hlogs & HF).
  { eapply Forall_impl; [|exact Hfile]. intros line Hl Ht.
    now apply acceptable_parses. }
  rewrite filter_not_blank in HF. now exists logs.
Qed.

(** X4: a file that can be read is loaded without error exactly when each
    of its lines is blank or has four tokens or more. *)
Theorem load_logs_succeeds_iff (fs : filesystem) (file_path : str)
    (file : list str) :
  fs file_path = inr file ->
  ((exists logs, load_logs fs file_path = Ok logs) <-> Forall acceptable file).
Proof.
  intros Hfs. split.
  - intros (logs & Hok). eapply load_logs_ok_acceptable; eassumption.
  - intros Hfile.
    destruct (load_logs_acceptable_ok fs file_path file Hfs Hfile)
      as (logs & Hok & _).
    now exists logs.
Qed.

Lemma load_logs_succeeds_iff_witness :
  (exists logs, load_logs (on_disk sample_file) (py "app.log") = Ok logs)
  <-> Forall acceptable sample_file.
Proof.
  exact (load_logs_succeeds_iff (on_disk sample_file) (py "app.log")
           sample_file eq_refl).
Defined.

(** X5: the list that [load_logs] returns has one entry per line that is
    not blank, so the counts of [count_logs_by_level] over it add up to the
    number of such lines. *)
Theorem load_logs_entry_count (fs : filesystem) (file_path : str)
    (file : list str) (logs : LogList) :
  fs file_path = inr file ->
  load_logs fs file_path = Ok logs ->
  length logs = non_blank_count file
  /\ total (count_logs_by_level logs) = Z.of_nat (non_blank_count file).
Proof.
  intros Hfs Hok.
  pose proof (load_logs_ok_acceptable fs file_path file logs Hfs Hok) as Hfile.
  destruct (load_logs_acceptable_ok fs file_path file Hfs Hfile)
    as (logs' & Hok' & HF).
  assert (logs' = logs) as -> by congruence.
  assert (length logs = non_blank_count file) as Hlen.
  { unfold non_blank_count. symmetry. eapply Forall2_length. exact HF. }
  split; [exact Hlen|].
  unfold count_logs_by_level. now rewrite Counter_total, length_map, Hlen.
Qed.

Lemma load_logs_entry_count_witness :
  load_logs (on_disk ([10] :: sample_file)) (py "app.log") = Ok sample_logs
  /\ length sample_logs = non_blank_count ([10] :: sample_file)
  /\ total (count_logs_by_level sample_logs)
     = Z.of_nat (non_blank_count ([10] :: sample_file)).
Proof.
  assert (load_logs (on_disk ([10] :: sample_file)) (py "app.log")
          = Ok sample_logs) as Hok by (vm_compute; reflexivity).
  split; [exact Hok|].
  exact (load_logs_entry_count (on_disk ([10] :: sample_file)) (py "app.log")
           ([10] :: sample_file) sample_logs eq_refl Hok).
Defined.

Lemma ascii_upper_not_lower (x : N) : ~ (97 <= ascii_upper x <= 122).
Proof.
  unfold ascii_upper.
  destruct (N.leb_spec 97 x), (N.leb_spec x 122); simpl; lia.
Qed.

Section LowerCaseLevels.

Context `{CaseTable}.

(** X6: an entry whose stored level has an ASCII lower-case letter in it
    is selected by no ASCII request: the request is upper-cased, the stored
    level is not. *)
Theorem filter_logs_by_level_misses_lower_case
    (logs : LogList) (q : str) (e : LogEntry) :
  Forall (fun c => c < 128) q ->
  has_ascii_lower (level e) ->
  ~ In e (filter_logs_by_level logs q).
Proof.
  intros Hq (c & Hc & Hrange) Hin.
  unfold filter_logs_by_level in Hin. apply filter_In in Hin as [_ Heq].
  unfold str_eqb in Heq.
  destruct (str_eq_dec (level e) (upper q)) as [E|]; [|discriminate].
  rewrite E, (upper_ascii q Hq) in Hc.
  apply in_map_iff in Hc as (x & <- & _).
  now apply (ascii_upper_not_lower x).
Qed.

End LowerCaseLevels.

Lemma filter_logs_by_level_misses_lower_case_witness :
  ~ In (mkLogEntry (py "2024-01-01") (py "10:00:00") (py "error") (py "Disk full"))
       (@filter_logs_by_level ascii_table
          [mkLogEntry (py "2024-01-01") (py "10:00:00") (py "error")
                      (py "Disk full")]
          (py "error")).
Proof.
  apply (@filter_logs_by_level_misses_lower_case ascii_table).
  - vm_compute. repeat constructor.
  - exists 101. split; [vm_compute; auto | lia].
Defined.

(* ===================================================================== *)
(** ** Further properties of the count table                              *)
(* ===================================================================== *)

Lemma nth_bar (field rest : str) (x : N) (w : nat) :
  length field = w -> nth (w + 1) (field ++ x :: 124 :: rest) 0 = 124.
Proof.
  intros <-. rewrite app_nth2 by lia.
  now replace (length field + 1 - length field)%nat with 1%nat by lia.
Qed.

Lemma ljust_length (s : str) (w : nat) :
  (length s <= w)%nat -> length (ljust s w) = w.
Proof.
  intros Hs. unfold ljust, repeat_char.
  rewrite length_app, repeat_length. lia.
Qed.

(** X7: with the width that [calculate_level_width] computes, what
    [print_table_header] and [print_table_rows] print is a header line, a
    rule and one row per label in which the bar stands in the same column,
    the one after the width and one more character; and every row begins
    with its label. *)
Theorem count_table_bar_column
    (counts : dict) (level_header count_header out : str) (w : nat) :
  w = calculate_level_width counts level_header ->
  print_table_header level_header count_header w out
  = (Ok tt, out ++ header_row level_header count_header w ++ [10]
                ++ separator_row count_header w ++ [10])
  /\ print_table_rows counts w out
     = (Ok tt, out ++ flat_map (table_row counts w) (sorted (keys counts)))
  /\ nth (w + 1) (header_row level_header count_header w) 0 = 124
  /\ nth (w + 1) (separator_row count_header w) 0 = 124
  /\ forall lvl, In lvl (keys counts) ->
       nth (w + 1) (table_row counts w lvl) 0 = 124
       /\ firstn (length lvl) (table_row counts w lvl) = lvl.
Proof.
  intros Hw.
  destruct (calculate_level_width_spec counts level_header) as (H1 & H2 & _).
  rewrite <- Hw in H1, H2.
  split; [apply print_table_header_text|].
  split; [apply print_table_rows_text|]. repeat split.
  - unfold header_row. rewrite app_assoc. apply nth_bar.
    now apply (ljust_length level_header w).
  - unfold separator_row. apply nth_bar. unfold repeat_char.
    apply repeat_length.
  - unfold table_row. change (py " | ") with [32; 124; 32].
    apply nth_bar. apply ljust_length. now apply H2.
  - unfold table_row, ljust. rewrite <- !app_assoc.
    rewrite firstn_app, firstn_all, Nat.sub_diag. simpl.
    now rewrite app_nil_r.
Qed.

Lemma count_table_bar_column_witness :
  16%nat = calculate_level_width (count_logs_by_level sample_logs) header_level
  /\ nth (16 + 1) (header_row header_level header_count 16) 0 = 124
  /\ nth (16 + 1) (separator_row header_count 16) 0 = 124
  /\ forall lvl, In lvl (keys (count_logs_by_level sample_logs)) ->
       nth (16 + 1) (table_row (count_logs_by_level sample_logs) 16 lvl) 0
       = 124
       /\ firstn (length lvl)
            (table_row (count_logs_by_level sample_logs) 16 lvl) = lvl.
Proof.
  assert (16%nat = calculate_level_width (count_logs_by_level sample_logs)
                     header_level) as Hw by (vm_compute; reflexivity).
  split; [exact Hw|].
  exact (proj2 (proj2 (count_table_bar_column
                         (count_logs_by_level sample_logs)
                         header_level header_count [] 16 Hw))).
Defined.

(** X8: [display_log_counts] never raises (no key is looked up that is not
    in the mapping); it prints the header line, the rule and the rows in
    ascending order of the labels, in a column at least as wide as the level
    header (16 characters); and two mappings with the same items in a
    different insertion order give the same text. *)
Theorem display_log_counts_output (counts : dict) (out : str) :
  display_log_counts counts out
  = (Ok tt,
     out ++ header_row header_level header_count
              (calculate_level_width counts header_level) ++ [10]
         ++ separator_row header_count
              (calculate_level_width counts header_level) ++ [10]
         ++ flat_map (table_row counts
                        (calculate_level_width counts header_level))
                     (sorted (keys counts)))
  /\ (16 <= calculate_level_width counts header_level)%nat
  /\ forall counts',
       NoDup (keys counts) -> Permutation counts counts' ->
       display_log_counts counts' out = display_log_counts counts out.
Proof.
  split; [apply display_log_counts_text|]. split.
  - destruct (calculate_level_width_spec counts header_level) as (H1 & _).
    exact H1.
  - intros counts' Hnd HP. rewrite !display_log_counts_text.
    rewrite (calculate_level_width_perm counts counts' header_level HP).
    rewrite (sorted_perm_eq (keys counts') (keys counts))
      by (apply Permutation_map; now apply Permutation_sym).
    do 6 f_equal. apply flat_map_ext. intros lvl.
    now apply table_row_perm.
Qed.

Lemma display_log_counts_output_witness :
  (NoDup (keys [(py "INFO", 1%Z); (py "ERROR", 2%Z)])
   /\ Permutation [(py "INFO", 1%Z); (py "ERROR", 2%Z)]
                  [(py "ERROR", 2%Z); (py "INFO", 1%Z)])
  /\ display_log_counts [(py "ERROR", 2%Z); (py "INFO", 1%Z)] []
     = display_log_counts [(py "INFO", 1%Z); (py "ERROR", 2%Z)] [].
Proof.
  assert (NoDup (keys [(py "INFO", 1%Z); (py "ERROR", 2%Z)])) as Hnd.
  { vm_compute. repeat constructor; simpl; intuition discriminate. }
  assert (Permutation [(py "INFO", 1%Z); (py "ERROR", 2%Z)]
                      [(py "ERROR", 2%Z); (py "INFO", 1%Z)]) as HP
    by apply perm_swap.
  split; [now split|].
  exact (proj2 (proj2 (display_log_counts_output
                         [(py "INFO", 1%Z); (py "ERROR", 2%Z)] []))
           _ Hnd HP).
Defined.

(* ===================================================================== *)
(** ** The entry point                                                    *)
(* ===================================================================== *)

Section Main.

Context `{CaseTable}.

Lemma display_filtered_logs_text (logs : LogList) (lvl out : str) :
  display_filtered_logs logs lvl out
  = (Ok tt,
     out ++ [10]
         ++ match logs with
            | [] => no_entries_notice (upper lvl) ++ [10]
            | _ :: _ =>
              details_header (upper lvl) ++ [10] ++ flat_map detail_line logs
            end).
Proof.
  destruct logs as [|e logs].
  - apply display_filtered_logs_empty.
  - now rewrite display_filtered_logs_entries by discriminate.
Qed.

(** X9: when the file has a malformed line, [main] ends with the
    [ValueError] of [load_logs], which its [except] clause does not catch,
    and prints nothing on standard output, whatever the arguments after the
    path are: neither a table nor a listing of the lines before it. *)
Theorem main_malformed_file
    (fs : filesystem) (script file_path : str) (rest : list str)
    (file : list str) (out : str) :
  fs file_path = inr file ->
  Exists malformed file ->
  exists bad,
    In bad file /\ malformed bad
    /\ main fs (script :: file_path :: rest) out
       = (Uncaught (ValueError (py "Invalid log format: " ++ bad)), out).
Proof.
  intros Hfs HE.
  destruct (first_malformed file HE) as (pre & bad & post & -> & Hpre & Hbad).
  exists bad. split; [apply in_or_app; right; now left|].
  split; [assumption|].
  unfold main.
  now rewrite (load_logs_raises fs file_path pre post bad Hfs Hpre Hbad).
Qed.

(** X10: without a path [main] prints the usage line and leaves with
    status 1; with a path that cannot be read it prints one line,
    ["Error: "] and the message of [load_logs] for the kind of failure (the
    path is named when the file is missing or may not be read), and leaves
    with status 1.  Nothing else is printed in these cases. *)
Theorem main_exit_status_1
    (fs : filesystem) (script file_path : str) (rest : list str) (out : str) :
  main fs [] out = (Exited 1, out ++ usage ++ [10])
  /\ main fs [script] out = (Exited 1, out ++ usage ++ [10])
  /\ forall failure,
       fs file_path = inl failure ->
       main fs (script :: file_path :: rest) out
       = (Exited 1,
          out ++ (py "Error: "
                    ++ match failure with
                       | NotFound => py "File '" ++ file_path ++ py "' not found."
                       | NoPermission =>
                         py "No permission to read '" ++ file_path ++ py "'."
                       | OtherFailure detail => py "File error: " ++ detail
                       end) ++ [10]).
Proof.
  split; [reflexivity|]. split; [reflexivity|].
  intros failure Hfs. unfold main, load_logs. rewrite Hfs.
  destruct failure; reflexivity.
Qed.

(** X11: for a file that is read and has no malformed line, [main]
    returns; with exactly one argument after the path it prints the detail
    listing of the entries of the file that [filter_logs_by_level] selects
    for that argument, and with none, or with more than one, the count
    table of all the entries of the file: a level followed by a further
    argument is not looked at. *)
Theorem main_acceptable_file
    (fs : filesystem) (script file_path : str) (file : list str) (out : str) :
  fs file_path = inr file ->
  Forall acceptable file ->
  exists logs,
    load_logs fs file_path = Ok logs
    /\ (forall lvl,
          main fs [script; file_path; lvl] out
          = (Returned,
             out ++ [10]
                 ++ match filter_logs_by_level logs lvl with
                    | [] => no_entries_notice (upper lvl) ++ [10]
                    | e :: es =>
                      details_header (upper lvl) ++ [10]
                        ++ flat_map detail_line (e :: es)
                    end))
    /\ (forall rest,
          length rest <> 1%nat ->
          main fs (script :: file_path :: rest) out
          = (Returned, snd (display_log_counts (count_logs_by_level logs) out))).
Proof.
  intros Hfs Hfile.
  destruct (load_logs_acceptable_ok fs file_path file Hfs Hfile)
    as (logs & Hok & _).
  exists logs. split; [exact Hok|]. split.
  - intros lvl. unfold main. rewrite Hok. cbv zeta.
    rewrite display_filtered_logs_text. unfold finish.
    now destruct (filter_logs_by_level logs lvl).
  - intros rest Hrest. unfold main. rewrite Hok.
    destruct rest as [|lvl [|x rest]]; simpl in Hrest; try congruence;
      cbv zeta; now rewrite display_log_counts_text.
Qed.

(** X12: two runs of [main] whose level arguments differ in letter case
    only end in the same way and print the same text. *)
Theorem main_level_case_insensitive
    (fs : filesystem) (script file_path q1 q2 out : str) :
  same_up_to_case q1 q2 ->
  main fs [script; file_path; q1] out = main fs [script; file_path; q2] out.
Proof.
  intros Hq. pose proof (same_up_to_case_upper q1 q2 Hq) as Hup.
  unfold main. destruct (load_logs fs file_path) as [logs | e];
    [|reflexivity].
  cbv zeta. rewrite !display_filtered_logs_text.
  unfold filter_logs_by_level. now rewrite Hup.
Qed.

End Main.

Lemma main_malformed_file_witness :
  Exists malformed [line_info; line_three_tokens; line_error2]
  /\ exists bad,
       In bad [line_info; line_three_tokens; line_error2] /\ malformed bad
       /\ @main ascii_table
            (on_disk [line_info; line_three_tokens; line_error2])
            [py "03_script_logger.py"; py "app.log"; py "error"] []
          = (Uncaught (ValueError (py "Invalid log format: " ++ bad)), []).
Proof.
  assert (Exists malformed [line_info; line_three_tokens; line_error2]) as HE.
  { apply Exists_cons_tl, Exists_cons_hd.
    split; [vm_compute; reflexivity | vm_compute; lia]. }
  split; [exact HE|].
  exact (@main_malformed_file ascii_table
           (on_disk [line_info; line_three_tokens; line_error2])
           (py "03_script_logger.py") (py "app.log") [py "error"]
           [line_info; line_three_tokens; line_error2] [] eq_refl HE).
Defined.

Lemma main_acceptable_file_witness :
  Forall acceptable sample_file
  /\ exists logs,
       load_logs (on_disk sample_file) (py "app.log") = Ok logs
       /\ (forall lvl,
             @main ascii_table (on_disk sample_file)
               [py "03_script_logger.py"; py "app.log"; lvl] []
             = (Returned,
                [] ++ [10]
                   ++ match @filter_logs_by_level ascii_table logs lvl with
                      | [] => no_entries_notice (@upper ascii_table lvl) ++ [10]
                      | e :: es =>
                        details_header (@upper ascii_table lvl) ++ [10]
                          ++ flat_map detail_line (e :: es)
                      end))
       /\ (forall rest,
             length rest <> 1%nat ->
             @main ascii_table (on_disk sample_file)
               (py "03_script_logger.py" :: py "app.log" :: rest) []
             = (Returned,
                snd (display_log_counts (count_logs_by_level logs) []))).
Proof.
  assert (Forall acceptable sample_file) as Hfile.
  { repeat (apply Forall_cons; [right; vm_compute; lia|]). apply Forall_nil. }
  split; [exact Hfile|].
  exact (@main_acceptable_file ascii_table (on_disk sample_file)
           (py "03_script_logger.py") (py "app.log") sample_file []
           eq_refl Hfile).
Defined.

Lemma main_level_case_insensitive_witness :
  @same_up_to_case ascii_table (py "Error") (py "eRRor")
  /\ @main ascii_table (on_disk sample_file)
       [py "03_script_logger.py"; py "app.log"; py "Error"] []
     = @main ascii_table (on_disk sample_file)
         [py "03_script_logger.py"; py "app.log"; py "eRRor"] [].
Proof.
  assert (@same_up_to_case ascii_table (py "Error") (py "eRRor")) as Hq.
  { vm_compute. repeat constructor. }
  split; [exact Hq|].
  exact (@main_level_case_insensitive ascii_table (on_disk sample_file)
           (py "03_script_logger.py") (py "app.log") (py "Error") (py "eRRor")
           [] Hq).
Defined.

Lemma main_exit_status_1_witness :
  @main ascii_table (fun _ => inl NotFound)
    [py "03_script_logger.py"; py "missing.log"] []
  = (Exited 1,
     [] ++ (py "Error: "
              ++ match NotFound with
                 | NotFound => py "File '" ++ py "missing.log" ++ py "' not found."
                 | NoPermission =>
                   py "No permission to read '" ++ py "missing.log" ++ py "'."
                 | OtherFailure detail => py "File error: " ++ detail
                 end) ++ [10]).
Proof.
  exact (proj2 (proj2 (@main_exit_status_1 ascii_table (fun _ => inl NotFound)
                         (py "03_script_logger.py") (py "missing.log") [] []))
           NotFound eq_refl).
Defined.

(* ===================================================================== *)
(** ** The assistant bot: properties                                      *)
(* ===================================================================== *)

Module BotCliFacts.

Import BotCli.

#[local] Arguments py : simpl never.

Section Bot.

Context `{TextTables}.

(** *** The contacts *)

Lemma lookup_store (contacts : Contacts) (name phone other : str) :
  lookup (store contacts name phone) other
  = if str_eq_dec other name then Some phone else lookup contacts other.
Proof.
  induction contacts as [|[n p] contacts IH]; simpl.
  - reflexivity.
  - destruct (str_eq_dec name n) as [->|Hn]; simpl.
    + destruct (str_eq_dec other n); reflexivity.
    + rewrite IH. destruct (str_eq_dec other n) as [->|]; [|reflexivity].
      destruct (str_eq_dec n name); congruence.
Qed.

Lemma lookup_none_iff (contacts : Contacts) (name : str) :
  lookup contacts name = None <-> ~ In name (names contacts).
Proof.
  induction contacts as [|[n p] contacts IH]; simpl; [tauto|].
  destruct (str_eq_dec name n) as [->|Hn]; [|rewrite IH];
    intuition congruence.
Qed.

Lemma contains_iff (contacts : Contacts) (name : str) :
  contains contacts name = true <-> In name (names contacts).
Proof.
  unfold contains. pose proof (lookup_none_iff contacts name) as Hn.
  destruct (lookup contacts name); split; intros Hc; try congruence.
  - destruct (in_dec str_eq_dec name (names contacts)) as [Hin|Hin];
      [exact Hin|]. apply Hn in Hin. discriminate.
  - exfalso. now apply (proj1 Hn).
Qed.

Lemma names_store (contacts : Contacts) (name phone : str) :
  names (store contacts name phone)
  = if contains contacts name then names contacts
    else names contacts ++ [name].
Proof.
  unfold contains. induction contacts as [|[n p] contacts IH]; simpl.
  - reflexivity.
  - destruct (str_eq_dec name n) as [->|Hn]; simpl; [reflexivity|].
    rewrite IH. now destruct (lookup contacts name).
Qed.

Lemma store_in (contacts : Contacts) (name phone : str) (item : str * str) :
  In item (store contacts name phone) ->
  item = (name, phone) \/ In item contacts.
Proof.
  induction contacts as [|[n p] contacts IH]; simpl.
  - intuition.
  - destruct (str_eq_dec name n) as [->|Hn]; simpl; intuition.
Qed.

Lemma store_well_formed (contacts : Contacts) (name phone : str) :
  valid_phone phone -> well_formed contacts ->
  well_formed (store contacts name phone).
Proof.
  intros Hp [Hnd Hall]. split.
  - rewrite names_store. destruct (contains contacts name) eqn:E;
      [exact Hnd|].
    apply NoDup_app; [exact Hnd | repeat constructor; intros [] |].
    intros x Hx [<- | []]. apply contains_iff in Hx. congruence.
  - apply Forall_forall. intros item Hin.
    apply store_in in Hin as [-> | Hin]; [exact Hp|].
    revert item Hin. now apply Forall_forall.
Qed.

(** *** [validate_phone] *)

Lemma validate_phone_cases (phone : str) :
  (valid_phone phone /\ validate_phone phone = Return tt)
  \/ (~ valid_phone phone
      /\ (validate_phone phone = Raised (ValueError only_digits)
          \/ validate_phone phone = Raised (ValueError ten_digits))).
Proof.
  unfold validate_phone, valid_phone, only_digits, ten_digits.
  destruct (isdigit phone); simpl.
  - destruct (Nat.eqb_spec (length phone) 10); simpl.
    + left. split; [split; [reflexivity | assumption] | reflexivity].
    + right. split; [intros [_ E]; contradiction | right; reflexivity].
  - right. split; [intros [E _]; discriminate E | left; reflexivity].
Qed.

(** *** The decorator *)

Lemma input_error_return {X} (func : X -> answer) (x : X) s contacts :
  func x = (Return s, contacts) -> input_error func x = (Return s, contacts).
Proof. unfold input_error. now intros ->. Qed.

Lemma input_error_value {X} (func : X -> answer) (x : X) e contacts :
  func x = (Raised (ValueError e), contacts) -> truthy e = true ->
  input_error func x = (Return e, contacts).
Proof. unfold input_error. intros -> He. simpl. now rewrite He. Qed.

Lemma input_error_key {X} (func : X -> answer) (x : X) a contacts :
  func x = (Raised (KeyError a), contacts) ->
  input_error func x = (Return (py "Contact not found."), contacts).
Proof. unfold input_error. now intros ->. Qed.

Ltac message_is_truthy := vm_compute; reflexivity.

(** What [add_contact] does with a name and a phone. *)
Lemma add_contact_pair (contacts : Contacts) (name phone : str) :
  add_contact ([name; phone], contacts)
  = match validate_phone phone with
    | Return _ => (Return (py "Contact added."), store contacts name phone)
    | Raised (ValueError e) => (Return e, contacts)
    | Raised e => (Raised e, contacts)
    end.
Proof.
  unfold add_contact.
  destruct (validate_phone_cases phone) as [[_ E] | [_ [E | E]]];
    rewrite E; unfold only_digits, ten_digits.
  - apply input_error_return. cbv beta iota. cbn [length Nat.eqb negb unpack2].
    now rewrite E.
  - apply input_error_value; [|message_is_truthy].
    cbv beta iota. cbn [length Nat.eqb negb unpack2]. now rewrite E.
  - apply input_error_value; [|message_is_truthy].
    cbv beta iota. cbn [length Nat.eqb negb unpack2]. now rewrite E.
Qed.

Lemma add_contact_arity (args : list str) (contacts : Contacts) :
  length args <> 2%nat ->
  add_contact (args, contacts)
  = (Return (py "Give me name and phone please."), contacts).
Proof.
  intros Hlen. unfold add_contact.
  apply input_error_value; [|message_is_truthy]. cbv beta iota.
  destruct (Nat.eqb_spec (length args) 2); [contradiction | reflexivity].
Qed.

(** What [change_contact] does with a name and a phone. *)
Lemma change_contact_pair (contacts : Contacts) (name phone : str) :
  change_contact ([name; phone], contacts)
  = if contains contacts name
    then match validate_phone phone with
         | Return _ =>
           (Return (py "Contact updated."), store contacts name phone)
         | Raised (ValueError e) => (Return e, contacts)
         | Raised e => (Raised e, contacts)
         end
    else (Return (py "Contact not found."), contacts).
Proof.
  unfold change_contact. destruct (contains contacts name) eqn:Ec.
  - destruct (validate_phone_cases phone) as [[_ E] | [_ [E | E]]];
      rewrite E; unfold only_digits, ten_digits.
    + apply input_error_return. cbv beta iota.
      cbn [length Nat.eqb negb unpack2]. now rewrite Ec, E.
    + apply input_error_value; [|message_is_truthy]. cbv beta iota.
      cbn [length Nat.eqb negb unpack2]. now rewrite Ec, E.
    + apply input_error_value; [|message_is_truthy]. cbv beta iota.
      cbn [length Nat.eqb negb unpack2]. now rewrite Ec, E.
  - apply (input_error_key _ _ []). cbv beta iota.
    cbn [length Nat.eqb negb unpack2]. now rewrite Ec.
Qed.

Lemma change_contact_arity (args : list str) (contacts : Contacts) :
  length args <> 2%nat ->
  change_contact (args, contacts)
  = (Return (py "Give me name and new phone please."), contacts).
Proof.
  intros Hlen. unfold change_contact.
  apply input_error_value; [|message_is_truthy]. cbv beta iota.
  destruct (Nat.eqb_spec (length args) 2); [contradiction | reflexivity].
Qed.

Lemma show_phone_name (contacts : Contacts) (name : str) :
  show_phone ([name], contacts)
  = match lookup contacts name with
    | Some phone => (Return (name ++ py ": " ++ phone), contacts)
    | None => (Return (py "Contact not found."), contacts)
    end.
Proof.
  unfold show_phone. destruct (lookup contacts name) as [phone|] eqn:E.
  - apply input_error_return. cbv beta iota. cbn [length Nat.eqb negb].
    now rewrite E.
  - apply (input_error_key _ _ [name]). cbv beta iota.
    cbn [length Nat.eqb negb]. now rewrite E.
Qed.

Lemma show_phone_arity (args : list str) (contacts : Contacts) :
  length args <> 1%nat ->
  show_phone (args, contacts) = (Return (py "Enter user name."), contacts).
Proof.
  intros Hlen. unfold show_phone.
  apply input_error_value; [|message_is_truthy]. cbv beta iota.
  destruct (Nat.eqb_spec (length args) 1); [contradiction | reflexivity].
Qed.

Lemma show_all_text (contacts : Contacts) :
  show_all contacts
  = (Return match contacts with
            | [] => py "No contacts found."
            | _ :: _ => join [10] (map item_line (sorted_items contacts))
            end,
     contacts).
Proof.
  unfold show_all. apply input_error_return.
  destruct contacts as [|item contacts]; [reflexivity|].
  do 3 f_equal. apply map_ext. now intros [name phone].
Qed.

(** X13: [add_contact] with a name and a valid phone answers
    ["Contact added."] and stores the phone under the name, whether the
    name was known or not; [show_phone] for that name then answers
    ["name: phone"]; the phone of every other name is as before; and the
    number of contacts grows by one for a new name and by none for a known
    one. *)
Theorem add_contact_then_show_phone (contacts : Contacts) (name phone : str) :
  valid_phone phone ->
  add_contact ([name; phone], contacts)
  = (Return contact_added, store contacts name phone)
  /\ show_phone ([name], store contacts name phone)
     = (Return (name ++ py ": " ++ phone), store contacts name phone)
  /\ (forall other, other <> name ->
        lookup (store contacts name phone) other = lookup contacts other)
  /\ length (store contacts name phone)
     = (if contains contacts name then length contacts
        else S (length contacts)).
Proof.
  intros Hp. unfold contact_added. repeat split.
  - rewrite add_contact_pair.
    destruct (validate_phone_cases phone) as [[_ ->] | [Hn _]];
      [reflexivity | contradiction].
  - rewrite show_phone_name, lookup_store.
    now destruct (str_eq_dec name name).
  - intros other Ho. rewrite lookup_store.
    now destruct (str_eq_dec other name).
  - rewrite <- !(length_map fst). fold (names (store contacts name phone)).
    fold (names contacts). rewrite names_store.
    destruct (contains contacts name); [reflexivity|].
    rewrite length_app. simpl. lia.
Qed.

(** X14: [add_contact] never raises; unless it answers
    ["Contact added."] for a list of exactly a name and a valid phone, it
    answers with one of its three error messages and leaves the contacts
    as they were. *)
Theorem add_contact_cases (args : list str) (contacts : Contacts) :
  (exists name phone,
     args = [name; phone] /\ valid_phone phone
     /\ add_contact (args, contacts)
        = (Return contact_added, store contacts name phone))
  \/ (exists message,
        add_contact (args, contacts) = (Return message, contacts)
        /\ (message = py "Give me name and phone please." /\ length args <> 2%nat
            \/ exists name phone,
                 args = [name; phone] /\ ~ valid_phone phone
                 /\ (message = only_digits \/ message = ten_digits))).
Proof.
  unfold contact_added, only_digits, ten_digits.
  destruct (Nat.eq_dec (length args) 2) as [Hlen | Hlen].
  - destruct args as [|name [|phone [|x args]]]; try discriminate Hlen.
    rewrite add_contact_pair.
    destruct (validate_phone_cases phone) as [[Hv ->] | [Hn [-> | ->]]];
      unfold only_digits, ten_digits.
    + left. exists name, phone.
      split; [reflexivity|]. split; [assumption | reflexivity].
    + right. eexists. split; [reflexivity|]. right. exists name, phone.
      split; [reflexivity|]. split; [assumption | left; reflexivity].
    + right. eexists. split; [reflexivity|]. right. exists name, phone.
      split; [reflexivity|]. split; [assumption | right; reflexivity].
  - right. eexists. split; [now apply add_contact_arity|].
    left. split; [reflexivity | assumption].
Qed.

(** X15: [change_contact] never raises and never adds or removes a name.
    For a name that is not among the contacts it answers
    ["Contact not found."], whatever the phone is, and changes nothing; for
    a known name and a valid phone it answers ["Contact updated."] and the
    name then has the new phone. *)
Theorem change_contact_cases (args : list str) (contacts : Contacts) :
  (exists message contacts',
     change_contact (args, contacts) = (Return message, contacts')
     /\ names contacts' = names contacts)
  /\ (forall name phone,
        args = [name; phone] -> contains contacts name = false ->
        change_contact (args, contacts) = (Return contact_not_found, contacts))
  /\ (forall name phone,
        args = [name; phone] -> contains contacts name = true ->
        valid_phone phone ->
        change_contact (args, contacts)
        = (Return contact_updated, store contacts name phone)
        /\ lookup (store contacts name phone) name = Some phone).
Proof.
  unfold contact_not_found, contact_updated. split; [|split].
  - destruct (Nat.eq_dec (length args) 2) as [Hlen | Hlen].
    + destruct args as [|name [|phone [|x args]]]; try discriminate Hlen.
      rewrite change_contact_pair.
      destruct (contains contacts name) eqn:Ec;
        [|eexists; eexists; split; reflexivity].
      destruct (validate_phone_cases phone) as [[Hv ->] | [Hn [-> | ->]]];
        eexists; eexists; (split; [reflexivity|]); try reflexivity.
      rewrite names_store. now rewrite Ec.
    + rewrite change_contact_arity by assumption.
      eexists; eexists; split; reflexivity.
  - intros name phone -> Ec. rewrite change_contact_pair. now rewrite Ec.
  - intros name phone -> Ec Hv. split.
    + rewrite change_contact_pair, Ec.
      destruct (validate_phone_cases phone) as [[_ ->] | [Hn _]];
        [reflexivity | contradiction].
    + rewrite lookup_store. now destruct (str_eq_dec name name).
Qed.

(** *** [show_all] *)

Lemma item_ltb_irrefl (a : str * str) : item_ltb a a = false.
Proof.
  unfold item_ltb. destruct (str_eq_dec (fst a) (fst a)); [|congruence].
  apply str_ltb_irrefl.
Qed.

Lemma item_ltb_trans (a b c : str * str) :
  item_ltb a b = true -> item_ltb b c = true -> item_ltb a c = true.
Proof.
  unfold item_ltb. intros H1 H2.
  destruct (str_eq_dec (fst a) (fst b)) as [Eab|Nab].
  - rewrite Eab. destruct (str_eq_dec (fst b) (fst c)) as [Ebc|Nbc];
      [exact (str_ltb_trans _ _ _ H1 H2) | exact H2].
  - destruct (str_eq_dec (fst b) (fst c)) as [Ebc|Nbc].
    + rewrite <- Ebc.
      destruct (str_eq_dec (fst a) (fst b)); [contradiction | exact H1].
    + pose proof (str_ltb_trans _ _ _ H1 H2) as H3.
      destruct (str_eq_dec (fst a) (fst c)) as [Eac|Nac]; [|exact H3].
      rewrite Eac in H1. pose proof (str_ltb_trans _ _ _ H1 H2) as Hc.
      rewrite str_ltb_irrefl in Hc. discriminate.
Qed.

Lemma item_ltb_total (a b : str * str) :
  item_ltb a b = false -> item_ltb b a = false -> a = b.
Proof.
  unfold item_ltb. destruct a as [a1 a2], b as [b1 b2]. simpl.
  intros H1 H2.
  destruct (str_eq_dec a1 b1) as [E|N].
  - destruct (str_eq_dec b1 a1) as [_|N']; [|congruence].
    f_equal; [exact E | now apply str_ltb_total].
  - destruct (str_eq_dec b1 a1) as [E'|_]; [congruence|].
    exfalso. apply N. now apply str_ltb_total.
Qed.

Lemma item_le_trans (a b c : str * str) :
  item_le a b -> item_le b c -> item_le a c.
Proof.
  unfold item_le. intros Hab Hbc.
  destruct (item_ltb c a) eqn:Hca; [|reflexivity].
  destruct (item_ltb a b) eqn:E.
  - rewrite (item_ltb_trans _ _ _ Hca E) in Hbc. discriminate.
  - rewrite <- (item_ltb_total _ _ E Hab) in Hbc. congruence.
Qed.

Lemma insert_item_perm (x : str * str) (l : list (str * str)) :
  Permutation (insert_item x l) (x :: l).
Proof.
  induction l as [|y l IH]; simpl; [reflexivity|].
  destruct (item_ltb y x); [|reflexivity].
  rewrite IH. apply perm_swap.
Qed.

Lemma sorted_items_perm (l : list (str * str)) :
  Permutation (sorted_items l) l.
Proof.
  induction l as [|x l IH]; simpl; [reflexivity|].
  rewrite insert_item_perm. now constructor.
Qed.

Lemma insert_item_ascending (x : str * str) (l : list (str * str)) :
  StronglySorted item_le l -> StronglySorted item_le (insert_item x l).
Proof.
  induction 1 as [|y l Hl IH Hy]; simpl; [repeat constructor|].
  destruct (item_ltb y x) eqn:E.
  - constructor; [assumption|].
    apply (Permutation_Forall (Permutation_sym (insert_item_perm x l))).
    constructor; [|assumption].
    unfold item_le. destruct (item_ltb x y) eqn:E'; [|reflexivity].
    pose proof (item_ltb_trans _ _ _ E E') as Hc.
    rewrite item_ltb_irrefl in Hc. discriminate.
  - constructor; [now constructor|].
    constructor; [exact E|].
    eapply Forall_impl; [|exact Hy]. intros z Hz.
    now apply (item_le_trans x y z).
Qed.

Lemma sorted_items_ascending (l : list (str * str)) :
  StronglySorted item_le (sorted_items l).
Proof.
  induction l as [|x l IH]; simpl; [constructor|].
  now apply insert_item_ascending.
Qed.

Lemma item_ascending_unique (l1 l2 : list (str * str)) :
  StronglySorted item_le l1 -> StronglySorted item_le l2 ->
  Permutation l1 l2 -> l1 = l2.
Proof.
  intros H1. revert l2. induction H1 as [|a l1 Hl1 IH Ha]; intros l2 H2 HP.
  - now apply Permutation_nil in HP.
  - destruct H2 as [|b l2 Hl2 Hb].
    + now apply Permutation_sym, Permutation_nil in HP.
    + assert (a = b) as ->.
      { assert (In a (b :: l2)) as Ia
          by (apply (Permutation_in _ HP); now left).
        assert (In b (a :: l1)) as Ib
          by (apply (Permutation_in _ (Permutation_sym HP)); now left).
        destruct Ia as [->|Ia]; [reflexivity|].
        destruct Ib as [->|Ib]; [reflexivity|].
        rewrite Forall_forall in Ha, Hb.
        apply item_ltb_total; [apply (Hb a Ia) | apply (Ha b Ib)]. }
      f_equal. apply IH; [assumption|].
      now apply Permutation_cons_inv in HP.
Qed.

Lemma item_ascending_by_name (l : list (str * str)) :
  StronglySorted item_le l -> NoDup (names l) -> StronglySorted name_lt l.
Proof.
  induction 1 as [|a l Hl IH Ha]; intros Hnd; [constructor|].
  simpl in Hnd. inversion Hnd as [|? ? Hin Hnd']; subst.
  constructor; [now apply IH|].
  rewrite Forall_forall in *. intros z Hz.
  specialize (Ha z Hz). unfold item_le, item_ltb in Ha.
  unfold name_lt, str_lt.
  destruct (str_eq_dec (fst z) (fst a)) as [E|N].
  - exfalso. apply Hin. rewrite <- E. now apply in_map.
  - destruct (str_ltb (fst a) (fst z)) eqn:E'; [reflexivity|].
    exfalso. apply N. symmetry. now apply str_ltb_total.
Qed.

(** X16: [show_all] never raises and leaves the contacts as they are.
    Without contacts it answers ["No contacts found."]; otherwise it
    answers one line ["name: phone"] per contact, joined by line ends, the
    lines in ascending order of the names; and the text does not depend on
    the order in which the contacts were added. *)
Theorem show_all_sorted (contacts : Contacts) :
  show_all []
  = (Return (py "No contacts found."), [])
  /\ (contacts <> [] ->
        show_all contacts
        = (Return (join [10] (map item_line (sorted_items contacts))),
           contacts))
  /\ Permutation (sorted_items contacts) contacts
  /\ (NoDup (names contacts) -> StronglySorted name_lt (sorted_items contacts))
  /\ (forall contacts',
        Permutation contacts contacts' ->
        fst (show_all contacts') = fst (show_all contacts)).
Proof.
  split; [apply show_all_text|]. split; [|split; [|split]].
  - intros Hne. rewrite show_all_text. now destruct contacts.
  - apply sorted_items_perm.
  - intros Hnd. apply item_ascending_by_name; [apply sorted_items_ascending|].
    apply (Permutation_NoDup (l := names contacts)); [|assumption].
    apply Permutation_map, Permutation_sym, sorted_items_perm.
  - intros contacts' HP. rewrite !show_all_text. simpl.
    destruct contacts as [|i contacts], contacts' as [|i' contacts'].
    + reflexivity.
    + now apply Permutation_nil in HP.
    + now apply Permutation_sym, Permutation_nil in HP.
    + do 3 f_equal. apply item_ascending_unique;
        try apply sorted_items_ascending.
      rewrite !sorted_items_perm. now apply Permutation_sym.
Qed.

(** *** [parse_input] *)

Lemma tokens_from_words (s cur : str) :
  no_space cur -> Forall word (tokens_from cur s).
Proof.
  revert cur. induction s as [|c s IH]; intros cur Hcur; simpl.
  - destruct cur as [|x cur]; constructor; [|constructor].
    split; [discriminate | assumption].
  - destruct (is_space c) eqn:Ec.
    + destruct cur as [|x cur]; [apply IH; constructor|].
      constructor; [split; [discriminate | assumption]|].
      apply IH. constructor.
    + apply IH. apply Forall_app. split; [assumption|].
      constructor; [exact Ec | constructor].
Qed.

Lemma strip_word (w : str) : word w -> strip w = w.
Proof.
  intros [Hne Hw]. unfold strip. rewrite lstrip_head.
  - apply rstrip_fixed. right.
    destruct (exists_last Hne) as (w' & c & ->). exists w', c.
    split; [reflexivity|]. apply Forall_app in Hw as [_ Hc].
    now inversion Hc.
  - destruct w as [|c w]; [congruence|]. now inversion Hw.
Qed.

Lemma tokens_blank (s : str) : tokens s = [] <-> is_blank s = true.
Proof.
  rewrite blank_iff_strip_empty. split.
  - intros Ht. rewrite tokens_unfold in Ht. unfold strip.
    destruct (lstrip s); [reflexivity | discriminate].
  - intros Hs. rewrite <- tokens_strip, Hs. reflexivity.
Qed.

(** X17: for a line of whitespace only (or of nothing) [parse_input]
    raises [ValueError], which [input_error] is not there to catch.  For
    any other line it returns the first whitespace-delimited token,
    lower-cased, followed by the remaining tokens as they were typed. *)
Theorem parse_input_cases (user_input : str) :
  (is_blank user_input = true -> parse_input user_input = Raised no_word)
  /\ (is_blank user_input = false ->
        exists cmd args,
          tokens user_input = cmd :: args
          /\ parse_input user_input = Return (lower cmd :: args)).
Proof.
  unfold parse_input, no_word. rewrite split_tokens.
  pose proof (tokens_from_words user_input [] (Forall_nil _)) as Hw.
  fold (tokens user_input) in Hw.
  pose proof (tokens_blank user_input) as Hb.
  destruct (tokens user_input) as [|cmd args]; split; intros E.
  - reflexivity.
  - rewrite (proj1 Hb eq_refl) in E. discriminate.
  - apply Hb in E. discriminate.
  - exists cmd, args. split; [reflexivity|]. cbv zeta.
    inversion Hw; subst. now rewrite strip_word.
Qed.

(** *** The session *)

Lemma add_contact_result (args : list str) (contacts : Contacts) :
  exists message contacts',
    add_contact (args, contacts) = (Return message, contacts')
    /\ (well_formed contacts -> well_formed contacts').
Proof.
  destruct (Nat.eq_dec (length args) 2) as [Hlen | Hlen].
  - destruct args as [|name [|phone [|x args]]]; try discriminate Hlen.
    rewrite add_contact_pair.
    destruct (validate_phone_cases phone) as [[Hv ->] | [Hn [-> | ->]]];
      eexists; eexists; (split; [reflexivity|]); try tauto.
    now apply store_well_formed.
  - rewrite add_contact_arity by assumption. eexists; eexists.
    split; [reflexivity | tauto].
Qed.

Lemma change_contact_result (args : list str) (contacts : Contacts) :
  exists message contacts',
    change_contact (args, contacts) = (Return message, contacts')
    /\ (well_formed contacts -> well_formed contacts').
Proof.
  destruct (Nat.eq_dec (length args) 2) as [Hlen | Hlen].
  - destruct args as [|name [|phone [|x args]]]; try discriminate Hlen.
    rewrite change_contact_pair.
    destruct (contains contacts name);
      [|eexists; eexists; split; [reflexivity | tauto]].
    destruct (validate_phone_cases phone) as [[Hv ->] | [Hn [-> | ->]]];
      eexists; eexists; (split; [reflexivity|]); try tauto.
    now apply store_well_formed.
  - rewrite change_contact_arity by assumption. eexists; eexists.
    split; [reflexivity | tauto].
Qed.

Lemma show_phone_result (args : list str) (contacts : Contacts) :
  exists message, show_phone (args, contacts) = (Return message, contacts).
Proof.
  destruct (Nat.eq_dec (length args) 1) as [Hlen | Hlen].
  - destruct args as [|name [|x args]]; try discriminate Hlen.
    rewrite show_phone_name.
    destruct (lookup contacts name); eexists; reflexivity.
  - rewrite show_phone_arity by assumption. eexists; reflexivity.
Qed.

(** Every handler of the table returns a message, and keeps well-formed
    contacts well-formed. *)
Lemma handler_result (command : str) handler (args : list str)
    (contacts : Contacts) :
  find_command commands command = Some handler ->
  exists message contacts',
    handler args contacts = (Return message, contacts')
    /\ (well_formed contacts -> well_formed contacts').
Proof.
  unfold commands. cbn [find_command].
  repeat match goal with
         | |- context [str_eq_dec command ?k] =>
           destruct (str_eq_dec command k) as [_|_]
         end; intros [= <-].
  - eexists; eexists. split; [reflexivity | tauto].
  - apply add_contact_result.
  - apply change_contact_result.
  - destruct (show_phone_result args contacts) as (m & ->).
    eexists; eexists. split; [reflexivity | tauto].
  - rewrite show_all_text. eexists; eexists. split; [reflexivity | tauto].
  - eexists; eexists. split; [reflexivity | tauto].
Qed.

Lemma loop_invariant (inputs : list str) (contacts : Contacts) (out : str) :
  (fst (fst (loop inputs contacts out)) = Finished
   \/ fst (fst (loop inputs contacts out)) = Crashed EOFError
   \/ (fst (fst (loop inputs contacts out)) = Crashed no_word
       /\ Exists (fun line => is_blank line = true) inputs))
  /\ (well_formed contacts -> well_formed (snd (fst (loop inputs contacts out)))).
Proof.
  revert contacts out. induction inputs as [|user_input rest IH];
    intros contacts out.
  - simpl. split; [right; left; reflexivity | tauto].
  - cbn [loop]. cbv zeta.
    destruct (is_blank user_input) eqn:Eb.
    + rewrite (proj1 (parse_input_cases user_input) Eb). simpl.
      split; [|tauto]. right. right. split; [reflexivity|]. now left.
    + destruct (proj2 (parse_input_cases user_input) Eb)
        as (cmd & args & _ & ->).
      destruct (existsb (str_eqb (lower cmd)) [py "close"; py "exit"]).
      * simpl. split; [now left | tauto].
      * destruct (find_command commands (lower cmd)) as [handler|] eqn:Ef.
        -- destruct (handler_result (lower cmd) handler args contacts Ef)
             as (message & contacts' & -> & Hwf).
           destruct (IH contacts' ((out ++ prompt) ++ message ++ [10]))
             as [Hend Hinv].
           split; [|tauto].
           destruct Hend as [Hend | [Hend | [Hend HE]]]; auto.
        -- destruct (IH contacts
                       ((out ++ prompt)
                          ++ py "Invalid command. Please use one of the following commands:"
                          ++ [10] ++ show_help ++ [10]))
             as [Hend Hinv].
           split; [|tauto].
           destruct Hend as [Hend | [Hend | [Hend HE]]]; auto.
Qed.

(** X18: a line of whitespace only (or an empty line) typed at the prompt
    ends the bot: the [ValueError] of [parse_input] is not caught, and
    nothing but the prompt has been printed for that line. *)
Theorem loop_blank_line (user_input : str) (rest : list str)
    (contacts : Contacts) (out : str) :
  is_blank user_input = true ->
  loop (user_input :: rest) contacts out
  = (Crashed no_word, contacts, out ++ prompt).
Proof.
  intros Eb. cbn [loop]. cbv zeta.
  now rewrite (proj1 (parse_input_cases user_input) Eb).
Qed.

(** X19: a session ends in one of three ways only: with the farewell
    after [close] or [exit]; with [EOFError] when the lines run out; or with
    the [ValueError] of a blank line, and then there was a blank line.  No
    command, whatever its arguments, ends the session with an exception. *)
Theorem main_endings (inputs : list str) :
  fst (fst (main inputs)) = Finished
  \/ fst (fst (main inputs)) = Crashed EOFError
  \/ (fst (fst (main inputs)) = Crashed no_word
      /\ Exists (fun line => is_blank line = true) inputs).
Proof. unfold main. apply loop_invariant. Qed.

(** X20: whatever is typed, the contacts at the end of a session hold
    every name once, and every phone in them is made of ten digits. *)
Theorem main_contacts_well_formed (inputs : list str) :
  well_formed (snd (fst (main inputs))).
Proof.
  unfold main. apply loop_invariant. split; constructor.
Qed.

End Bot.

Lemma add_contact_then_show_phone_witness :
  @valid_phone ascii_tables (py "0123456789")
  /\ @add_contact ascii_tables ([py "John"; py "0123456789"], [])
     = (Return contact_added, store [] (py "John") (py "0123456789"))
  /\ show_phone ([py "John"], store [] (py "John") (py "0123456789"))
     = (Return (py "John" ++ py ": " ++ py "0123456789"),
        store [] (py "John") (py "0123456789")).
Proof.
  assert (@valid_phone ascii_tables (py "0123456789")) as Hv
    by (split; vm_compute; reflexivity).
  split; [exact Hv|].
  pose proof (@add_contact_then_show_phone ascii_tables [] (py "John")
                (py "0123456789") Hv) as (H1 & H2 & _).
  split; [exact H1 | exact H2].
Defined.

Lemma change_contact_cases_witness :
  contains [(py "Ann", py "0123456789")] (py "John") = false
  /\ @change_contact ascii_tables
       ([py "John"; py "12"], [(py "Ann", py "0123456789")])
     = (Return contact_not_found, [(py "Ann", py "0123456789")]).
Proof.
  assert (contains [(py "Ann", py "0123456789")] (py "John") = false) as Hc
    by (vm_compute; reflexivity).
  split; [exact Hc|].
  exact (proj1 (proj2 (@change_contact_cases ascii_tables
                         [py "John"; py "12"] [(py "Ann", py "0123456789")]))
           (py "John") (py "12") eq_refl Hc).
Defined.

Lemma show_all_sorted_witness :
  (NoDup (names [(py "Bob", py "0123456789"); (py "Ann", py "9876543210")])
   /\ Permutation [(py "Bob", py "0123456789"); (py "Ann", py "9876543210")]
                  [(py "Ann", py "9876543210"); (py "Bob", py "0123456789")])
  /\ StronglySorted name_lt
       (sorted_items [(py "Bob", py "0123456789"); (py "Ann", py "9876543210")])
  /\ fst (show_all [(py "Ann", py "9876543210"); (py "Bob", py "0123456789")])
     = fst (show_all [(py "Bob", py "0123456789"); (py "Ann", py "9876543210")]).
Proof.
  assert (NoDup (names [(py "Bob", py "0123456789");
                        (py "Ann", py "9876543210")])) as Hnd.
  { vm_compute. repeat constructor; simpl; intuition discriminate. }
  assert (Permutation [(py "Bob", py "0123456789"); (py "Ann", py "9876543210")]
                      [(py "Ann", py "9876543210"); (py "Bob", py "0123456789")])
    as HP by apply perm_swap.
  pose proof (show_all_sorted
                [(py "Bob", py "0123456789"); (py "Ann", py "9876543210")])
    as (_ & _ & _ & Hsorted & Horder).
  split; [now split|]. split; [exact (Hsorted Hnd) | exact (Horder _ HP)].
Defined.

Lemma parse_input_cases_witness :
  (is_blank (py "   ") = true
   /\ @parse_input ascii_tables (py "   ") = Raised no_word)
  /\ (is_blank (py "ADD John 0123456789") = false
      /\ exists cmd args,
           tokens (py "ADD John 0123456789") = cmd :: args
           /\ @parse_input ascii_tables (py "ADD John 0123456789")
              = Return (@lower ascii_tables cmd :: args)).
Proof.
  assert (is_blank (py "   ") = true) as H1 by (vm_compute; reflexivity).
  assert (is_blank (py "ADD John 0123456789") = false) as H2
    by (vm_compute; reflexivity).
  split; (split; [assumption|]).
  - exact (proj1 (@parse_input_cases ascii_tables (py "   ")) H1).
  - exact (proj2 (@parse_input_cases ascii_tables (py "ADD John 0123456789"))
             H2).
Defined.

Lemma loop_blank_line_witness :
  is_blank [] = true
  /\ @loop ascii_tables [[]; py "exit"] [] []
     = (Crashed no_word, [], [] ++ prompt).
Proof.
  split; [reflexivity|].
  exact (@loop_blank_line ascii_tables [] [py "exit"] [] [] eq_refl).
Defined.

(** A session, run on the ASCII tables: a contact is added under an
    upper-case command word, changed, shown, and the bot is left. *)
Example session_example :
  fst (@main ascii_tables
         [py "ADD John 0123456789"; py "change John 1112223334";
          py "phone John"; py "add Ann 12"; py "all"; py "Exit"])
  = (Finished, [(py "John", py "1112223334")]).
Proof. vm_compute. reflexivity. Qed.

End BotCliFacts.
